(** * Intern bootstrap pipeline: argument parsing and the PreExecutor

    A shallow embedding of [parseArgs] (src/unnamed/part_001) and of
    [PreExecutor] with [sendErrorToConduit] (src/src/lib/declarations.ts).

    Conventions.
    - A JavaScript string is a [string]; each [ascii] stands for one code unit,
      so the strings covered are those whose code units are below 256.
    - An object used as a dictionary is a [gmap string _] holding its own
      properties; what [key in obj] and [obj[key]] find on [Object.prototype]
      is given by the engine ([Object_prototype]).
    - Code that can throw returns a [completion].
    - What the code takes from the engine, from the host and from modules that
      are not part of the sources ([util], [dojo/*], Node's module system) is
      a field of one of the classes [Engine], [Host], [Util] and [Modules].
    - Functions are known by identity only; effects on the page, on the
      process and on the loader globals are passed along as records. *)

From Stdlib Require Import String Ascii List Bool Arith ZArith QArith Lia.
From stdpp Require Import base option list strings pretty gmap fin_maps.

Set Warnings "-register-all".

Local Open Scope string_scope.
Local Open Scope list_scope.

(** ** JavaScript values and completions *)

Module JS.

(** The errors the modelled code throws, or lets through from a builtin. *)
Inductive error :=
| Error (message : string)
| TypeError
| SyntaxError
| URIError.

Inductive completion (A : Type) :=
| Return (a : A)
| Throw (e : error).
Arguments Return {A} a.
Arguments Throw {A} e.

Definition bind {A B} (c : completion A) (k : A -> completion B) : completion B :=
  match c with
  | Return a => k a
  | Throw e => Throw e
  end.

(** A Number value. Doubles are a subset of these; the conversions between
    strings and numbers belong to the engine. *)
Inductive number :=
| NaN
| Infinity (negative : bool)
| Finite (q : Q).

Definition isNaN_number (n : number) : bool :=
  match n with NaN => true | _ => false end.

(** The object [new RegExp(source, flags)]: the pattern and the flags as they
    were given to the constructor. *)
Record RegExp := { source : string; flags : string }.

(** Values an argument object or a loader map can hold. [VObject text] is
    the object that [JSON.parse text] yields; [VFunction name] is a built-in
    function. *)
Inductive value :=
| VBool (b : bool)
| VNumber (n : number)
| VString (s : string)
| VRegExp (r : RegExp)
| VArray (items : list value)
| VObject (text : string)
| VFunction (name : string).

Definition isArray (v : value) : bool :=
  match v with VArray _ => true | _ => false end.

(** What the code asks of the ECMAScript engine. *)
Class Engine := {
  (** [decodeURIComponent s]; [None] when it throws a URIError. *)
  decodeURIComponent : string -> option string;
  (** Whether [JSON.parse text] succeeds rather than throws. *)
  JSON_parses : string -> bool;
  (** Whether [new RegExp(pattern, flags)] succeeds rather than throws. *)
  RegExp_accepts : string -> string -> bool;
  (** [new RegExp(pattern, flags).test(input)]. *)
  RegExp_test : RegExp -> string -> bool;
  (** The value found on [Object.prototype] under a property name. *)
  Object_prototype : string -> option value;
  (** [Number(s)] for a string [s]. *)
  StringToNumber : string -> number;
  (** The string a number turns into under [+] with a string. *)
  NumberToString : number -> string
}.

(** [obj[key]] for a plain object: the own property, else what
    [Object.prototype] holds. *)
Definition get `{Engine} (obj : gmap string value) (key : string) : option value :=
  match obj !! key with
  | Some v => Some v
  | None => Object_prototype key
  end.

(** [key in obj] for a plain object. *)
Definition has `{Engine} (obj : gmap string value) (key : string) : bool :=
  bool_decide (is_Some (get obj key)).

(** A JSON value. [JSerialized j] is the string [JSON.stringify(j)]. *)
Inductive json :=
| JNumber (n : nat)
| JString (s : string)
| JSerialized (j : json)
| JArray (items : list json)
| JObject (fields : list (string * json)).

(** *** String primitives used by the sources *)

(** [s.charAt(0)]; [None] stands for the empty string that it returns when
    [s] is empty. *)
Definition charAt0 (s : string) : option ascii :=
  match s with
  | EmptyString => None
  | String c _ => Some c
  end.

(** [s.slice(n)] for [0 <= n]. *)
Fixpoint slice_from (n : nat) (s : string) : string :=
  match n, s with
  | O, _ => s
  | S n', String _ s' => slice_from n' s'
  | S _, EmptyString => EmptyString
  end.

(** [s.slice(0, n)] for [0 <= n]. *)
Fixpoint slice_to (n : nat) (s : string) : string :=
  match n, s with
  | S n', String c s' => String c (slice_to n' s')
  | _, _ => EmptyString
  end.

(** [s.split(sep)] for a one-character separator: never empty. *)
Fixpoint split (sep : ascii) (s : string) : list string :=
  match s with
  | EmptyString => [EmptyString]
  | String c s' =>
      if Ascii.eqb c sep then EmptyString :: split sep s'
      else match split sep s' with
           | h :: t => String c h :: t
           | [] => [String c EmptyString]
           end
  end.

Fixpoint take_while (p : ascii -> bool) (s : string) : string :=
  match s with
  | String c s' => if p c then String c (take_while p s') else EmptyString
  | EmptyString => EmptyString
  end.

Fixpoint drop_while (p : ascii -> bool) (s : string) : string :=
  match s with
  | String c s' => if p c then drop_while p s' else s
  | EmptyString => EmptyString
  end.

Fixpoint forallb_string (p : ascii -> bool) (s : string) : bool :=
  match s with
  | String c s' => p c && forallb_string p s'
  | EmptyString => true
  end.

End JS.

Export JS.

#[global] Instance completion_bind : MBind completion :=
  fun A B k c => JS.bind c k.
#[global] Instance completion_ret : MRet completion := @JS.Return.

(** ** parseArgs *)

Module ParseArgs.

(** An argument object: own properties only. *)
Abbreviation Args := (gmap string value).

Section WithEngine.
Context `{Engine}.


(** The [replace] of line 24: one or two leading hyphens are dropped. *)
Definition strip_dashes (s : string) : string :=
  match s with
  | String "-" (String "-" s') => s'
  | String "-" s' => s'
  | _ => s
  end.

(** Lines 35-40: a decoded value beginning with an opening brace is
    JSON-parsed, one beginning with an escaped brace loses the backslash. *)
Definition interpret (decoded : string) : completion value :=
  if bool_decide (charAt0 decoded = Some "{"%char) then
    if JSON_parses decoded then Return (VObject decoded) else Throw SyntaxError
  else if String.eqb (slice_to 2 decoded) "\{" then
    Return (VString (slice_from 1 decoded))
  else Return (VString decoded).

(** Lines 22-41: the key and the value of one raw argument. *)
Definition parseToken (decode : string -> completion string) (arg : string)
  : completion (string * value) :=
  let parts := split "="%char arg in
  let key := strip_dashes (hd EmptyString parts) in
  match parts with
  | _ :: part1 :: _ =>
      decoded ← decode part1;
      value ← interpret decoded;
      Return (key, value)
  | _ => Return (key, VBool true)
  end.

(** Lines 44-53: a key already there ([key in args]) collects its values in
    an array, a new key is assigned. The name [__proto__] is outside this
    model: an assignment to it replaces the prototype of [args] and adds no
    property, after which other names are inherited. *)
Definition record (args : Args) (key : string) (v : value) : Args :=
  match get args key with
  | Some old =>
      let items := match old with VArray items => items | _ => [old] end in
      <[key := VArray (items ++ [v])]> args
  | None => <[key := v]> args
  end.

(** The [forEach] of [parseArguments], continued from an argument object. *)
Fixpoint parseInto (decode : string -> completion string)
    (rawArgs : list string) (args : Args) : completion Args :=
  match rawArgs with
  | [] => Return args
  | arg :: rest =>
      kv ← parseToken decode arg;
      parseInto decode rest (record args kv.1 kv.2)
  end.

Definition parseArguments (rawArgs : list string)
    (decode : string -> completion string) : completion Args :=
  parseInto decode rawArgs ∅.

(** [rawArgs] is an array, hence truthy: the fallback to [process.argv] of
    line 2 is never taken. *)
Definition fromCommandLine (rawArgs : list string) : completion Args :=
  parseArguments rawArgs (fun str => Return str).

(** The [replace] of line 8: a leading question mark is dropped. *)
Definition strip_question (query : string) : string :=
  match query with
  | String "?" q => q
  | _ => query
  end.

(** [parts[1]] is always a string, so the boolean case of the decoder is
    never met and every value goes through [decodeURIComponent]. *)
Definition fromQueryString (query : string) : completion Args :=
  parseArguments (split "&"%char (strip_question query))
    (fun str => match decodeURIComponent str with
                | Some s => Return s
                | None => Throw URIError
                end).

(** The raw arguments read one by one, apart from the object they fill. *)
Fixpoint parseTokens (decode : string -> completion string)
    (rawArgs : list string) : completion (list (string * value)) :=
  match rawArgs with
  | [] => Return []
  | arg :: rest =>
      kv ← parseToken decode arg;
      kvs ← parseTokens decode rest;
      Return (kv :: kvs)
  end.

End WithEngine.

(** The values given for a key, in the order of the tokens. *)
Definition valuesOf (key : string) (tokens : list (string * value)) : list value :=
  (filter (fun kv => kv.1 = key) tokens).*2.

(** What an argument object is to hold for a key with these values: nothing
    for none, the value itself for one, an array of them for more. *)
Definition collected (values : list value) : option value :=
  match values with
  | [] => None
  | [v] => Some v
  | _ => Some (VArray values)
  end.

End ParseArgs.

(** ** The host and the modules outside the sources *)

Module Env.

(** An error object. [reported] is the marker read by [PreExecutor.run];
    [false] stands for a marker that is unset or falsy. *)
Record ErrorObject := {
  err_name : string;
  err_message : string;
  err_stack : option string;
  reported : bool
}.

Record LoaderOptions := {
  baseUrl : option string;
  (** [map]: for each module prefix (the wildcard is ["*"]), its aliases. *)
  map : option (gmap string (gmap string value));
  (** The options the pipeline does not look at. *)
  other_options : gmap string value
}.

Record Loaders := {
  loaders_host_node : option string;
  loaders_host_browser : option string
}.

(** What [PreExecutor.getConfig] reads from [args] itself. *)
Record CommandLineArguments := {
  arg_config : option string;
  arg_loaders : option Loaders
}.

Inductive port :=
| PortNumber (n : number)
| PortString (s : string).

(** A key that lines 142 and 151 test with [typeof]: an object passes the
    test, null passes it too, and undefined or a value of any other type
    does not. *)
Inductive objectOrNull (A : Type) :=
| AnObject (a : A)
| Null
| NotAnObject.

Arguments AnObject {A} a.
Arguments Null {A}.
Arguments NotAnObject {A}.

(** The configuration object once the arguments are mixed in: the keys that
    [getConfig] reads, each with the type it is used at. [None] is a key
    that is undefined or null; the two deprecated keys tell null from
    undefined, since the code does; a port is a number, or a string when it
    comes from the command line or the query string. *)
Record Config := {
  basePath : option string;
  initialBaseUrl : option string;
  loader : objectOrNull LoaderOptions;
  useLoader : objectOrNull Loaders;
  loaderOptions : option LoaderOptions;
  loaders : option Loaders;
  grep : option string;
  coverageVariable : option string;
  instrumenterOptions : option (gmap string value);
  proxyPort : option port;
  proxyUrl : option string
}.

(** The same object as [getConfig] leaves it. *)
Record ResolvedConfig := {
  r_basePath : option string;
  r_loaderOptions : LoaderOptions;
  r_loaders : option Loaders;
  r_grep : RegExp;
  r_instrumenterOptions : gmap string value;
  r_proxyPort : number;
  r_proxyUrl : string
}.

(** The host: the [has()] flags and what the globals [location], [process],
    [console] and the path module answer. *)
Class Host := {
  has_host_browser : bool;
  has_host_node : bool;
  location_search : string;
  location_pathname : string;
  (** The value of the [location.pathname.replace] call of line 190: the
      pathname with its last three segments replaced by one slash. *)
  location_pathname_above_client : string;
  process_argv : list string;
  process_cwd : string;
  (** [pathUtil.isAbsolute], which Node 0.10 lacks. *)
  pathUtil_isAbsolute : option (string -> bool);
  pathUtil_sep : string;
  console_defined : bool;
  (** [require.toUrl] of the bootstrap loader. *)
  toUrl : string -> string
}.

(** The [util] module and [dojo/lang], which the sources import and do not
    contain. *)
Class Util := {
  normalizePath : string -> string;
  getErrorMessage : ErrorObject -> string;
  assertSafeModuleId : string -> completion unit;
  isAbsoluteUrl : string -> bool;
  (** [util.getModule(url)] followed by [lang.deepMixin(config, args)]. *)
  getMergedConfig : string -> CommandLineArguments -> completion Config
}.

End Env.

Export Env.

(** ** String tests and rewrites the PreExecutor applies *)

Module Text.

Fixpoint last_char (s : string) : option ascii :=
  match s with
  | EmptyString => None
  | String c EmptyString => Some c
  | String _ s' => last_char s'
  end.

Definition ends_with (suffix s : string) : bool :=
  String.prefix (String.rev suffix) (String.rev s).

(** [s] without its last [n] characters. *)
Definition drop_last (n : nat) (s : string) : string :=
  String.rev (slice_from n (String.rev s)).

(** [s.slice(-n)]. *)
Definition slice_last (n : nat) (s : string) : string :=
  String.rev (slice_to n (String.rev s)).

Definition between (lo hi c : ascii) : bool :=
  (nat_of_ascii lo <=? nat_of_ascii c)%nat && (nat_of_ascii c <=? nat_of_ascii hi)%nat.

(** The class [\w]. *)
Definition is_word (c : ascii) : bool :=
  between "a" "z" c || between "A" "Z" c || between "0" "9" c || Ascii.eqb c "_".

Definition is_slash (c : ascii) : bool := Ascii.eqb c "/".

(** What [.] leaves out, among code units below 256. *)
Definition is_line_terminator (c : ascii) : bool :=
  Ascii.eqb c "010" || Ascii.eqb c "013".

(** The class [[gim]]. *)
Definition is_gim (c : ascii) : bool :=
  Ascii.eqb c "g" || Ascii.eqb c "i" || Ascii.eqb c "m".

(** The test of line 181 (word characters, then a colon, at the start): the
    word characters that open [s] are at least one and a colon follows. *)
Definition test_scheme (s : string) : bool :=
  negb (String.eqb (take_while is_word s) EmptyString)
  && bool_decide (charAt0 (drop_while is_word s) = Some ":"%char).

(** The test of line 206: as above, or two slashes and a word character. *)
Definition test_scheme_or_relative (s : string) : bool :=
  test_scheme s
  || match s with
     | String "/" (String "/" (String c _)) => is_word c
     | _ => false
     end.

(** [s] cut at its last occurrence of [c]. *)
Fixpoint split_last (c : ascii) (s : string) : option (string * string) :=
  match s with
  | EmptyString => None
  | String a s' =>
      match split_last c s' with
      | Some (p, f) => Some (String a p, f)
      | None => if Ascii.eqb a c then Some (EmptyString, s') else None
      end
  end.

(** The [exec] of line 229, as its two captures: [s] is a slash, a pattern
    of characters that are no line terminators, a slash, and flags among g,
    i and m up to the end. The flags hold no slash, so the slash that closes
    the pattern is the last slash of [s]. *)
Definition exec_grep_literal (s : string) : option (string * string) :=
  match s with
  | String "/" rest =>
      match split_last "/" rest with
      | Some (p, f) =>
          if forallb_string (fun c => negb (is_line_terminator c)) p
             && forallb_string is_gim f
          then Some (p, f) else None
      | None => None
      end
  | _ => None
  end.

(** The shape that line 229 looks for, by its parts. *)
Definition literalForm (s pattern flags : string) : Prop :=
  s = "/" +:+ pattern +:+ "/" +:+ flags
  /\ forallb_string (fun c => negb (is_line_terminator c)) pattern = true
  /\ forallb_string is_gim flags = true.

(** The double quote, and a text between two of them. *)
Definition dquote : string := String "034" EmptyString.

Definition quoted (s : string) : string := dquote +:+ s +:+ dquote.

(** A replacement string as [replace] reads it when the pattern has no
    capture: two dollar signs stand for one, a dollar sign and an ampersand
    for the text matched, a dollar sign and a backquote for the text before
    the match, a dollar sign and a quote for the text after it; any other
    dollar sign stands for itself, also before a digit, there being no
    capture to refer to. *)
Fixpoint substitute (matched before after replacement : string) : string :=
  match replacement with
  | EmptyString => EmptyString
  | String c rest =>
      if Ascii.eqb c "$" then
        match rest with
        | String d rest' =>
            if Ascii.eqb d "$" then String "$" (substitute matched before after rest')
            else if Ascii.eqb d "&" then matched +:+ substitute matched before after rest'
            else if Ascii.eqb d "`" then before +:+ substitute matched before after rest'
            else if Ascii.eqb d "'" then after +:+ substitute matched before after rest'
            else String c (substitute matched before after rest)
        | EmptyString => String c EmptyString
        end
      else String c (substitute matched before after rest)
  end.

(** The outer [replace] of line 137: the match is the final slash, or the
    empty text at the end where there is none; it gives way to [tail], read
    as a replacement string. *)
Definition replace_final_slash (tail s : string) : string :=
  if ends_with "/" s
  then drop_last 1 s +:+ substitute "/" (drop_last 1 s) EmptyString tail
  else s +:+ substitute EmptyString s EmptyString tail.

(** The inner [replace] of line 137: the module id with the extension [.js],
    added unless it is there. *)
Definition with_js_extension (s : string) : string :=
  (if ends_with ".js" s then drop_last 3 s else s) +:+ ".js".

(** The [replace] of line 275: the last run of slashes and what follows it
    become one slash; a string without a slash is left as it is. *)
Definition replace_last_segment (s : string) : string :=
  let after := drop_while (fun c => negb (is_slash c)) (String.rev s) in
  match after with
  | EmptyString => s
  | _ => String.rev (drop_while is_slash after) +:+ "/"
  end.

(** Every occurrence of one character replaced (a [replace] with the flag
    g), and the two replacements of line 279. *)
Fixpoint replace_all (c : ascii) (by_ : string) (s : string) : string :=
  match s with
  | EmptyString => EmptyString
  | String a s' =>
      (if Ascii.eqb a c then by_ else String a EmptyString) +:+ replace_all c by_ s'
  end.

Definition escape_html (s : string) : string :=
  replace_all "<" "&lt;" (replace_all "&" "&amp;" s).

(** The [exec] of line 584, as its capture: at the first place where a
    question mark or an ampersand is followed by [sessionId=] and at least
    one character other than an ampersand, those characters up to the next
    ampersand. *)
Fixpoint exec_sessionId (s : string) : option string :=
  match s with
  | EmptyString => None
  | String c rest =>
      let here :=
        if (Ascii.eqb c "?" || Ascii.eqb c "&") && String.prefix "sessionId=" rest
        then take_while (fun a => negb (Ascii.eqb a "&")) (slice_from 10 rest)
        else EmptyString in
      match here with
      | EmptyString => exec_sessionId rest
      | _ => Some here
      end
  end.

(** [s] with a slash added unless it ends with one (lines 171-173). *)
Definition with_final_slash (s : string) : string :=
  if bool_decide (last_char s = Some "/"%char) then s else s +:+ "/".

End Text.

Export Text.

(** ** PreExecutor: arguments and configuration *)

Module PreExecutor.

(** An early event: the arguments of a later [reporterManager.emit]. *)
Abbreviation EarlyEvent := (list string).

Section WithHost.
Context `{Engine} `{Host} `{Util}.

(** Lines 103-108, for one of the four list-valued names. *)
Definition normalizeList (kwArgs : ParseArgs.Args) (name : string) : ParseArgs.Args :=
  match get kwArgs name with
  | Some value =>
      if isArray value then kwArgs
      else <[name := match value with
                     | VString EmptyString => VArray []
                     | _ => VArray [value]
                     end]> kwArgs
  | None => kwArgs
  end.

(** Lines 110-115. *)
Definition normalizeExcludeInstrumentation (kwArgs : ParseArgs.Args)
  : completion ParseArgs.Args :=
  match get kwArgs "excludeInstrumentation" with
  | Some (VString s) =>
      if String.eqb s "true" then
        Return (<["excludeInstrumentation" := VBool true]> kwArgs)
      else if RegExp_accepts s EmptyString then
        Return (<["excludeInstrumentation" :=
                    VRegExp {| source := s; flags := EmptyString |}]> kwArgs)
      else Throw SyntaxError
  | _ => Return kwArgs
  end.

(** Lines 96-101: [kwArgs] stays undefined on a host that is neither, and
    reading a property of it then throws. *)
Definition rawArguments : completion ParseArgs.Args :=
  if has_host_browser then ParseArgs.fromQueryString location_search
  else if has_host_node then ParseArgs.fromCommandLine (drop 2 process_argv)
  else Throw TypeError.

Definition listNames : list string :=
  ["environments"; "functionalSuites"; "reporters"; "suites"].

Definition getArguments : completion ParseArgs.Args :=
  kwArgs ← rawArguments;
  normalizeExcludeInstrumentation (foldl normalizeList kwArgs listNames).

(** Lines 176-183: [pathUtil.isAbsolute], or the fallback. *)
Definition isAbsoluteBaseUrl_node (path : string) : bool :=
  match pathUtil_isAbsolute with
  | Some isAbsolute => isAbsolute path
  | None =>
      if String.eqb pathUtil_sep "/" then bool_decide (charAt0 path = Some "/"%char)
      else test_scheme path
  end.

(** Lines 204-207. *)
Definition isAbsoluteBaseUrl_browser (url : string) : bool :=
  test_scheme_or_relative url.

(** Lines 164-212: the base path and the absoluteness test of the host. No
    test is defined on a host that is neither a browser nor Node. *)
Definition resolveBasePath (args : CommandLineArguments) (config : Config)
  : completion (option string * option (string -> bool)) :=
  if has_host_node then
    let basePath := normalizePath (default process_cwd (basePath config)) in
    Return (Some (with_final_slash basePath), Some isAbsoluteBaseUrl_node)
  else if has_host_browser then
    let defaultBasePath :=
      match initialBaseUrl config with
      | Some url => if String.eqb url EmptyString
                    then normalizePath location_pathname_above_client else url
      | None => normalizePath location_pathname_above_client
      end in
    let basePath :=
      match basePath config with
      | None => defaultBasePath
      | Some p => if bool_decide (charAt0 p = Some "."%char)
                  then normalizePath (defaultBasePath +:+ p) else p
      end in
    _ ← match arg_loaders args ≫= loaders_host_browser with
        | None | Some EmptyString => Return tt
        | Some id => assertSafeModuleId id
        end;
    Return (Some (with_final_slash basePath), Some isAbsoluteBaseUrl_browser)
  else Return (basePath config, None).

(** Lines 216-223. A base URL that is undefined or empty is falsy. An
    undefined base path would concatenate as the word undefined; it is
    defined wherever an absoluteness test is. *)
Definition resolveBaseUrl (basePath : option string)
    (isAbsoluteBaseUrl : option (string -> bool)) (baseUrl : option string)
  : completion (option string) :=
  match baseUrl with
  | None | Some EmptyString => Return basePath
  | Some url =>
      match isAbsoluteBaseUrl with
      | None => Throw TypeError
      | Some isAbsolute =>
          if isAbsolute url then Return (Some url)
          else Return (Some (normalizePath (default "undefined" basePath +:+ url)))
      end
  end.

(** [new RegExp(pattern, flags)]. *)
Definition newRegExp (pattern flags : string) : completion RegExp :=
  if RegExp_accepts pattern flags
  then Return {| source := pattern; flags := flags |}
  else Throw SyntaxError.

(** Lines 225-237. *)
Definition compileGrep (grep : option string) : completion RegExp :=
  match grep with
  | None => newRegExp EmptyString EmptyString
  | Some text =>
      match exec_grep_literal text with
      | Some (pattern, flags) => newRegExp pattern flags
      | None => newRegExp text "i"
      end
  end.

(** Lines 245-253. *)
Definition resolveProxyPort (proxyPort : option port) : completion number :=
  match proxyPort with
  | None => Return (Finite 9000)
  | Some (PortString s) =>
      if isNaN_number (StringToNumber s)
      then Throw (Error "proxyPort must be a number")
      else Return (StringToNumber s)
  | Some (PortNumber n) => Return n
  end.

(** Lines 256-258. *)
Definition resolveProxyUrl (proxyUrl : option string) (proxyPort : number) : string :=
  match proxyUrl with
  | Some url => url
  | None => "http://localhost:" +:+ NumberToString proxyPort +:+ "/"
  end.

Definition deprecated (what instead : string) : EarlyEvent :=
  ["deprecated"; what; instead].

(** Lines 142-149 and 160: the loader options that the rest works on. The
    deprecated key [loader] takes the place of [loaderOptions] whenever its
    type is object, also when it is null; options that are null or
    undefined then become the empty object. *)
Definition effectiveLoaderOptions (config : Config) : LoaderOptions :=
  default {| baseUrl := None; map := None; other_options := ∅ |}
    (match loader config with
     | AnObject options => Some options
     | Null => None
     | NotAnObject => loaderOptions config
     end).

(** The absoluteness test that lines 164-212 pick. *)
Definition isAbsoluteBaseUrl (url : string) : bool :=
  if has_host_node then isAbsoluteBaseUrl_node url else isAbsoluteBaseUrl_browser url.

(** Lines 160-237: the base path, the loader's base URL and the grep. *)
Definition resolvePathsAndGrep (args : CommandLineArguments) (config : Config)
  : completion (option string * option string * RegExp) :=
  '(basePath1, isAbsoluteBaseUrl) ← resolveBasePath args config;
  baseUrl1 ← resolveBaseUrl basePath1 isAbsoluteBaseUrl
               (baseUrl (effectiveLoaderOptions config));
  grep1 ← compileGrep (grep config);
  Return (basePath1, baseUrl1, grep1).

(** Lines 139-260: the continuation of the configuration promise. It returns
    the configuration and the early events, the new ones appended; when it
    throws, the events are not given. *)
Definition resolveConfig (args : CommandLineArguments) (config : Config)
    (earlyEvents : list EarlyEvent) : completion (ResolvedConfig * list EarlyEvent) :=
  let earlyEvents1 :=
    match loader config with
    | NotAnObject => earlyEvents
    | _ => earlyEvents
           ++ [deprecated ("The " +:+ quoted "loader" +:+ " configuration option")
                          (quoted "loaderOptions")]
    end in
  let earlyEvents2 :=
    match useLoader config with
    | NotAnObject => earlyEvents1
    | _ => earlyEvents1
           ++ [deprecated ("The " +:+ quoted "useLoader" +:+ " configuration option")
                          (quoted "loaders")]
    end in
  let loaders1 :=
    match useLoader config with
    | AnObject l => Some l
    | Null => None
    | NotAnObject => loaders config
    end in
  let loaderOptions2 := effectiveLoaderOptions config in
  '(basePath1, baseUrl1, grep1) ← resolvePathsAndGrep args config;
  let instrumenterOptions1 := default ∅ (instrumenterOptions config) in
  let instrumenterOptions2 :=
    match coverageVariable config with
    | None | Some EmptyString => instrumenterOptions1
    | Some v => <["coverageVariable" := VString v]> instrumenterOptions1
    end in
  proxyPort1 ← resolveProxyPort (proxyPort config);
  Return ({| r_basePath := basePath1;
             r_loaderOptions := {| baseUrl := baseUrl1;
                                   map := map loaderOptions2;
                                   other_options := other_options loaderOptions2 |};
             r_loaders := loaders1;
             r_grep := grep1;
             r_instrumenterOptions := instrumenterOptions2;
             r_proxyPort := proxyPort1;
             r_proxyUrl := resolveProxyUrl (proxyUrl config) proxyPort1 |},
          earlyEvents2).

(** Lines 127-138: the module id is required and checked, the configuration
    module is fetched below the default base URL and the arguments are mixed
    in; [resolveConfig] does the rest. *)
Definition getConfig (defaultBaseUrl : string) (args : CommandLineArguments)
    (earlyEvents : list EarlyEvent) : completion (ResolvedConfig * list EarlyEvent) :=
  match arg_config args with
  | None | Some EmptyString => Throw (Error ("Missing required argument " +:+ quoted "config"))
  | Some moduleId =>
      _ ← assertSafeModuleId moduleId;
      config ← getMergedConfig
                 (replace_final_slash ("/" +:+ with_js_extension moduleId) defaultBaseUrl)
                 args;
      resolveConfig args config earlyEvents
  end.

(** *** The error reporting bridge (lines 273-340, 456-462, 580-618) *)

(** A request handed to [dojo/request]. *)
Record Request := {
  req_url : string;
  req_method : string;
  req_headers : list (string * string);
  req_data : json
}.

(** An element appended to [document.body]. *)
Record ErrorNode := { cssText : string; innerHTML : string }.

(** What the error handling changes: the counter closed over by
    [sendErrorToConduit], the requests issued, the document body and the
    console. [handled] lists the calls of [_handleError]; it is there to
    count them. *)
Record Page := {
  sequence : nat;
  requests : list Request;
  body : list ErrorNode;
  console : list string;
  handled : list ErrorObject
}.

(** How a call that may throw or end the process comes back. *)
Inductive outcome :=
| Completed
| Threw (e : error)
| Exited (code : nat).

(** Lines 592-603: the array posted, serialised as line 610 does. A stack
    that is undefined is left out by [JSON.stringify]. *)
Definition conduitData (sequence : nat) (sessionId : string) (error : ErrorObject) : json :=
  JSerialized (JArray [
    JSerialized (JObject [
      ("sequence", JNumber sequence);
      ("sessionId", JString sessionId);
      ("payload", JArray [
         JString "fatalError";
         JObject ([("name", JString (err_name error));
                   ("message", JString (err_message error))]
                  ++ match err_stack error with
                     | Some stack => [("stack", JString stack)]
                     | None => []
                     end
                  ++ [("sessionId", JString sessionId)])])])]).

(** Lines 605-611. *)
Definition conduitRequest (sequence : nat) (sessionId : string) (error : ErrorObject)
  : Request :=
  {| req_url := toUrl "intern/";
     req_method := "POST";
     req_headers := [("Content-Type", "application/json")];
     req_data := conduitData sequence sessionId error |}.

(** Lines 583-617. *)
Definition sendErrorToConduit (error : ErrorObject) (page : Page) : Page * outcome :=
  match exec_sessionId location_search with
  | None => (page, Completed)
  | Some encoded =>
      match decodeURIComponent encoded with
      | None => (page, Threw URIError)
      | Some sessionId =>
          ({| sequence := S (sequence page);
              requests := requests page ++
                [conduitRequest (sequence page) sessionId error];
              body := body page;
              console := console page;
              handled := handled page |},
           Completed)
      end
  end.

(** Lines 279-284. *)
Definition errorNode (error : ErrorObject) : ErrorNode :=
  {| cssText := "color: red; font-family: sans-serif;";
     innerHTML :=
       "<h1>Fatal error during pre-execution stage</h1><pre style=" +:+ dquote
       +:+ "padding: 1em; background-color: #f0f0f0;" +:+ dquote +:+ ">"
       +:+ escape_html (getErrorMessage error) +:+ "</pre>" |}.

Definition noteHandled (error : ErrorObject) (page : Page) : Page :=
  {| sequence := sequence page; requests := requests page; body := body page;
     console := console page; handled := handled page ++ [error] |}.

(** Lines 273-295. *)
Definition _handleError (error : ErrorObject) (page : Page) : Page * outcome :=
  let page := noteHandled error page in
  if has_host_browser then
    let '(page, sent) :=
      if String.eqb (slice_last 10 (replace_last_segment location_pathname)) "/__intern/"
      then sendErrorToConduit error page
      else (page, Completed) in
    match sent with
    | Completed =>
        ({| sequence := sequence page; requests := requests page;
            body := body page ++ [errorNode error];
            console := console page; handled := handled page |},
         Completed)
    | _ => (page, sent)
    end
  else if console_defined then
    let page := {| sequence := sequence page; requests := requests page;
                   body := body page;
                   console := console page ++ [getErrorMessage error];
                   handled := handled page |} in
    (page, if has_host_node then Exited 1 else Completed)
  else (page, Completed).

(** How the promise of [run] ends on its failure path. *)
Inductive rejection :=
| RejectedWith (error : ErrorObject)
| RejectedByHandler (e : error)
| ProcessExit (code : nat).

(** Lines 456-462: the [catch] that closes the promise chain of [run]. The
    error object is read and thrown again; nothing assigns to it. *)
Definition run_catch (error : ErrorObject) (page : Page) : Page * rejection :=
  if reported error then (page, RejectedWith error)
  else
    match _handleError error page with
    | (page, Completed) => (page, RejectedWith error)
    | (page, Threw e) => (page, RejectedByHandler e)
    | (page, Exited code) => (page, ProcessExit code)
    end.

(** *** Registration of the global error handler (lines 314-340) *)

(** A function by identity: a handler given by a caller, or the closure of
    lines 330-332 made by an installation, which calls that handler. *)
Inductive callback :=
| Handler (h : nat)
| Wrapper (installation : nat) (h : nat).

#[global] Instance callback_eq_dec : EqDecision callback.
Proof. solve_decision. Defined.

(** A [Removable]: the handle of [dojo/aspect] for a piece of advice, or the
    object of lines 333-338, whose [remove] works once. *)
Inductive Removable :=
| AspectHandle (advice : nat)
| ListenerHandle (h : nat) (spent : bool).

Record Bridge := {
  (** The advice before [window.onerror]: identity and handler, the latest
      first. *)
  onerror_advice : list (nat * nat);
  (** The listeners of [uncaughtException] on [process], in the order they
      were added. *)
  uncaught_listeners : list callback;
  (** The [Removable] objects made so far. *)
  removables : gmap nat Removable;
  (** [this._earlyErrorHandle]. *)
  _earlyErrorHandle : option nat;
  (** The next fresh identity. *)
  fresh : nat
}.

(** [process.removeListener]: the instance added last goes, if there is
    one. *)
Fixpoint removeLast (f : callback) (listeners : list callback) : list callback :=
  match listeners with
  | [] => []
  | g :: rest =>
      if bool_decide (f ∈ rest) then g :: removeLast f rest
      else if bool_decide (g = f) then rest
      else g :: rest
  end.

Definition removeListener (f : callback) (b : Bridge) : Bridge :=
  {| onerror_advice := onerror_advice b;
     uncaught_listeners := removeLast f (uncaught_listeners b);
     removables := removables b;
     _earlyErrorHandle := _earlyErrorHandle b;
     fresh := fresh b |}.

(** [handle.remove()]. The handle of [dojo/aspect] takes its advice out;
    the object of lines 333-338 disables itself and hands [handler], the
    function given to [registerErrorHandler], to [process.removeListener]. *)
Definition remove (handle : nat) (b : Bridge) : Bridge :=
  match removables b !! handle with
  | Some (AspectHandle advice) =>
      {| onerror_advice := filter (fun a => a.1 ≠ advice) (onerror_advice b);
         uncaught_listeners := uncaught_listeners b;
         removables := removables b;
         _earlyErrorHandle := _earlyErrorHandle b;
         fresh := fresh b |}
  | Some (ListenerHandle h false) =>
      removeListener (Handler h)
        {| onerror_advice := onerror_advice b;
           uncaught_listeners := uncaught_listeners b;
           removables := <[handle := ListenerHandle h true]> (removables b);
           _earlyErrorHandle := _earlyErrorHandle b;
           fresh := fresh b |}
  | Some (ListenerHandle _ true) | None => b
  end.

(** Lines 315-318. *)
Definition dropEarlyErrorHandle (b : Bridge) : Bridge :=
  match _earlyErrorHandle b with
  | Some handle =>
      let b := remove handle b in
      {| onerror_advice := onerror_advice b;
         uncaught_listeners := uncaught_listeners b;
         removables := removables b;
         _earlyErrorHandle := None;
         fresh := fresh b |}
  | None => b
  end.

(** Lines 314-340. The result is the handle returned, which is undefined
    on a host that is neither a browser nor Node. *)
Definition registerErrorHandler (handler : nat) (b : Bridge) : option nat * Bridge :=
  let b := dropEarlyErrorHandle b in
  let id := fresh b in
  if has_host_browser then
    (Some id,
     {| onerror_advice := (id, handler) :: onerror_advice b;
        uncaught_listeners := uncaught_listeners b;
        removables := <[id := AspectHandle id]> (removables b);
        _earlyErrorHandle := _earlyErrorHandle b;
        fresh := S id |})
  else if has_host_node then
    (Some id,
     {| onerror_advice := onerror_advice b;
        uncaught_listeners := uncaught_listeners b ++ [Wrapper id handler];
        removables := <[id := ListenerHandle handler false]> (removables b);
        _earlyErrorHandle := _earlyErrorHandle b;
        fresh := S id |})
  else (None, b).

(** Line 353: [run] keeps the handle of its own handler. *)
Definition run_register (earlyErrorHandler : nat) (b : Bridge) : Bridge :=
  let '(handle, b) := registerErrorHandler earlyErrorHandler b in
  {| onerror_advice := onerror_advice b;
     uncaught_listeners := uncaught_listeners b;
     removables := removables b;
     _earlyErrorHandle := handle;
     fresh := fresh b |}.

Definition isWrapper (f : callback) : bool :=
  match f with Wrapper _ _ => true | Handler _ => false end.

(** The handler a callback ends up calling. *)
Definition handlerOf (f : callback) : nat :=
  match f with Handler h => h | Wrapper _ h => h end.

(** The handlers that an uncaught error reaches on this host. *)
Definition activeHandlers (b : Bridge) : list nat :=
  if has_host_browser then (onerror_advice b).*2
  else if has_host_node then handlerOf <$> uncaught_listeners b
  else [].

(** A page on which no error has been handled yet. *)
Definition freshPage : Page :=
  {| sequence := 0; requests := []; body := []; console := []; handled := [] |}.

Definition emptyBridge : Bridge :=
  {| onerror_advice := []; uncaught_listeners := []; removables := ∅;
     _earlyErrorHandle := None; fresh := 0 |}.

(** *** Swapping the AMD loader (lines 478-568) *)

(** An AMD loader function, by name; [has_config] tells whether it has a
    [config] method (line 546), [has_nodeRequire] whether it carries Node's
    [require] as its property [nodeRequire] (line 483). *)
Record AmdLoader := {
  loader_name : string;
  has_config : bool;
  has_nodeRequire : bool
}.

(** What a Node module exports, as far as line 511 tells: a function, taken
    for the loader, or something else. *)
Inductive exports :=
| ExportsFunction (loader : AmdLoader)
| ExportsOther.

(** The global slots that loaders register in. *)
Record Globals := {
  g_require : option AmdLoader;
  g_define : bool;
  g_curl : option AmdLoader;
  g_requirejs : option AmdLoader
}.

(** The module system of the host. *)
Class Modules := {
  (** [require.resolve(id)]; [None] when it throws. *)
  require_resolve : string -> option string;
  (** [moduleUtil._findPath(id, moduleUtil._nodeModulePaths(basePath))] when
      the module has both helpers; an answer [None] is the answer false. *)
  module_findPath : option (string -> string -> option string);
  (** What running the module of a file does to the globals, and what it
      exports. *)
  module_body : string -> Globals -> Globals * exports;
  (** What loading the script at a URL does to the globals; [None] when the
      load fails. *)
  script_load : string -> Globals -> option Globals;
  (** What the property [src] of a script element reads as once a URL has
      been assigned to it: the URL resolved against the base URL of the
      document. *)
  script_src : string -> string
}.

Context `{Modules}.

Record Runtime := {
  globals : Globals;
  (** [require.cache], by file name. *)
  cache : gmap string exports;
  (** The module files run so far, in order. *)
  executed : list string;
  (** The script elements in [document.head], by [src]. *)
  scripts : list string;
  (** The calls that configured a loader, in order. *)
  configured : list (AmdLoader * option LoaderOptions)
}.

Definition setGlobals (g : Globals) (rt : Runtime) : Runtime :=
  {| globals := g; cache := cache rt; executed := executed rt;
     scripts := scripts rt; configured := configured rt |}.

(** Line 495 and line 523. *)
Definition clearLoaderSlots (g : Globals) : Globals :=
  {| g_require := None; g_define := false;
     g_curl := g_curl g; g_requirejs := g_requirejs g |}.

(** Node's [require(id)]: a cached module is not run again. *)
Definition nodeRequire (id : string) (rt : Runtime) : Runtime * completion exports :=
  match require_resolve id with
  | None => (rt, Throw (Error "Cannot find module"))
  | Some file =>
      match cache rt !! file with
      | Some e => (rt, Return e)
      | None =>
          let '(g, e) := module_body file (globals rt) in
          ({| globals := g; cache := <[file := e]> (cache rt);
              executed := executed rt ++ [file];
              scripts := scripts rt; configured := configured rt |},
           Return e)
      end
  end.

Definition truthy (s : option string) : option string :=
  match s with
  | Some EmptyString | None => None
  | Some s => Some s
  end.

(** Lines 482-521. Node's [require] is read off the global [require]: with
    no global [require] line 483 throws, and with one that has no
    [nodeRequire] line 490 throws, before the module is looked for. *)
Definition swapLoader_node (basePath id : string) (rt : Runtime)
  : Runtime * completion (option AmdLoader) :=
  match g_require (globals rt) with
  | None => (rt, Throw TypeError)
  | Some active =>
      if negb (has_nodeRequire active) then (rt, Throw TypeError)
      else
      match require_resolve id with
      | None => (rt, Throw (Error "Cannot find module"))
      | Some file =>
          if bool_decide (is_Some (cache rt !! file)) then (rt, Return (Some active))
          else
            let rt := setGlobals (clearLoaderSlots (globals rt)) rt in
            let id :=
              match module_findPath with
              | Some findPath => default id (findPath id basePath)
              | None => id
              end in
            match nodeRequire id rt with
            | (rt, Throw e) => (rt, Throw e)
            | (rt, Return e) =>
                let amdRequire :=
                  match e with
                  | ExportsFunction loader => Some loader
                  | ExportsOther => g_require (globals rt)
                  end in
                let g := globals rt in
                let rt :=
                  match g_require g with
                  | Some _ => rt
                  | None =>
                      setGlobals {| g_require := amdRequire; g_define := g_define g;
                                    g_curl := g_curl g; g_requirejs := g_requirejs g |} rt
                  end in
                (rt, Return amdRequire)
            end
      end
  end.

(** Lines 522-541, with the event that ends the load of the script. The
    script element goes by the URL assigned to it; the message of line 532
    reads the property [src] back. *)
Definition swapLoader_browser (basePath loaderUrl : string) (rt : Runtime)
  : Runtime * completion (option AmdLoader) :=
  let g := clearLoaderSlots (globals rt) in
  let src := if isAbsoluteUrl loaderUrl then loaderUrl else basePath +:+ loaderUrl in
  match script_load src g with
  | Some g =>
      ({| globals := g; cache := cache rt; executed := executed rt;
          scripts := scripts rt ++ [src]; configured := configured rt |},
       Return (match g_curl g with
               | Some l => Some l
               | None => match g_requirejs g with
                         | Some l => Some l
                         | None => g_require g
                         end
               end))
  | None =>
      (setGlobals g rt,
       Throw (Error ("Failed to load AMD loader from " +:+ script_src src)))
  end.

(** Lines 481-544: the executor of the promise. *)
Definition obtainLoader (basePath : string) (loaders : option Loaders) (rt : Runtime)
  : Runtime * completion (option AmdLoader) :=
  match (if has_host_node then truthy (loaders ≫= loaders_host_node) else None) with
  | Some id => swapLoader_node basePath id rt
  | None =>
      match (if has_host_browser then truthy (loaders ≫= loaders_host_browser) else None) with
      | Some url => swapLoader_browser basePath url rt
      | None => (rt, Return (g_require (globals rt)))
      end
  end.

(** Lines 556-560: each key of the default map that is not [in] the user's
    map is copied into it. *)
Definition fillStarMap (defaultStarMap userStarMap : gmap string value) : gmap string value :=
  map_fold (fun key v userStarMap =>
              if has userStarMap key then userStarMap else <[key := v]> userStarMap)
           userStarMap defaultStarMap.

(** Lines 550-561: the user's options as they are after the merge. *)
Definition mergeStarMap (defaultLoaderOptions : option LoaderOptions)
    (loaderOptions : LoaderOptions) : LoaderOptions :=
  match map loaderOptions, defaultLoaderOptions ≫= map with
  | Some userMap, Some defaultMap =>
      match userMap !! "*", defaultMap !! "*" with
      | Some userStarMap, Some defaultStarMap =>
          {| baseUrl := baseUrl loaderOptions;
             map := Some (<["*" := fillStarMap defaultStarMap userStarMap]> userMap);
             other_options := other_options loaderOptions |}
      | _, _ => loaderOptions
      end
  | _, _ => loaderOptions
  end.

(** The wildcard aliases of some loader options, if they have any. *)
Definition starMap (options : option LoaderOptions) : option (gmap string value) :=
  match options ≫= map with
  | Some aliases => aliases !! "*"
  | None => None
  end.

(** Loader options with their wildcard aliases replaced. *)
Definition withStarMap (star : gmap string value) (options : LoaderOptions) : LoaderOptions :=
  {| baseUrl := baseUrl options;
     map := Some (<["*" := star]> (default ∅ (map options)));
     other_options := other_options options |}.

Definition setConfig (loader : AmdLoader) (options : option LoaderOptions)
    (rt : Runtime) : Runtime :=
  {| globals := globals rt; cache := cache rt; executed := executed rt;
     scripts := scripts rt; configured := configured rt ++ [(loader, options)] |}.

(** Lines 545-567: the continuation that configures the loader. It returns
    the loader and the user's options, which the merge has written to. *)
Definition configureLoader (defaultLoaderOptions : option LoaderOptions)
    (loaderOptions : option LoaderOptions) (loader : option AmdLoader) (rt : Runtime)
  : Runtime * completion (AmdLoader * option LoaderOptions) :=
  match loader with
  | None => (rt, Throw TypeError)
  | Some loader =>
      let rt := setConfig loader defaultLoaderOptions rt in
      match loaderOptions with
      | Some options =>
          let options := mergeStarMap defaultLoaderOptions options in
          (setConfig loader (Some options) rt, Return (loader, Some options))
      | None => (rt, Return (loader, None))
      end
  end.

(** Lines 478-568. *)
Definition swapLoader (defaultLoaderOptions : option LoaderOptions)
    (basePath : string) (loaders : option Loaders)
    (loaderOptions : option LoaderOptions) (rt : Runtime)
  : Runtime * completion (AmdLoader * option LoaderOptions) :=
  match obtainLoader basePath loaders rt with
  | (rt, Return loader) => configureLoader defaultLoaderOptions loaderOptions loader rt
  | (rt, Throw e) => (rt, Throw e)
  end.

End WithHost.

End PreExecutor.

(** ** An engine and hosts for the closed examples

    Each field answers as ECMAScript, Node or the [util] module does on the
    inputs that the examples below give it; the comments say how far that
    goes. *)

Module Example.

(** Decimal digits only. *)
Fixpoint digits_value (acc : N) (s : string) : option N :=
  match s with
  | EmptyString => Some acc
  | String c s' =>
      match Ascii.is_nat c with
      | Some d => digits_value (acc * 10 + N.of_nat d) s'
      | None => None
      end
  end.

(** [Number(s)] where [s] is a run of decimal digits or a run of letters
    other than the word Infinity. *)
Definition exampleStringToNumber (s : string) : number :=
  match s with
  | EmptyString => Finite 0
  | _ => match digits_value 0 s with
         | Some n => Finite (inject_Z (Z.of_N n))
         | None => NaN
         end
  end.

(** The string of a number that is a natural number, NaN or infinite. *)
Definition exampleNumberToString (n : number) : string :=
  match n with
  | NaN => "NaN"
  | Infinity false => "Infinity"
  | Infinity true => "-Infinity"
  | Finite q => pretty (Z.to_N (Qnum q / Zpos (Qden q)))
  end.

(** [needle] occurs in [s]. *)
Fixpoint occurs (needle s : string) : bool :=
  String.prefix needle s
  || match s with
     | EmptyString => false
     | String _ s' => occurs needle s'
     end.

(** The flags g, i and m, each at most once. *)
Definition exampleFlags (flags : string) : bool :=
  bool_decide (NoDup (list_ascii_of_string flags)) && forallb_string is_gim flags.

(** Patterns made of word characters, which match where they occur. *)
Definition exampleRegExpAccepts (pattern flags : string) : bool :=
  forallb_string is_word pattern && exampleFlags flags.

Definition exampleRegExpTest (r : RegExp) (input : string) : bool :=
  occurs (source r) input.

(** The function-valued properties that ECMAScript 5 puts on
    [Object.prototype]. *)
Definition exampleObjectPrototype (key : string) : option value :=
  if bool_decide (key ∈ ["constructor"; "toString"; "toLocaleString"; "valueOf";
                         "hasOwnProperty"; "isPrototypeOf"; "propertyIsEnumerable"])
  then Some (VFunction (if String.eqb key "constructor" then "Object" else key))
  else None.

(** Strings without a percent sign decode to themselves; a percent sign
    that no two hexadecimal digits follow is malformed. Escapes are not
    covered. *)
Definition exampleDecode (s : string) : option string :=
  if forallb_string (fun c => negb (Ascii.eqb c "%")) s then Some s else None.

Definition exampleEngine : Engine :=
  {| decodeURIComponent := exampleDecode;
     JSON_parses := fun text => String.eqb text "{}";
     RegExp_accepts := exampleRegExpAccepts;
     RegExp_test := exampleRegExpTest;
     Object_prototype := exampleObjectPrototype;
     StringToNumber := exampleStringToNumber;
     NumberToString := exampleNumberToString |}.

(** A page served by the Intern proxy for a remote session. *)
Definition browserHost : Host :=
  {| has_host_browser := true;
     has_host_node := false;
     location_search := "?sessionId=abc123";
     location_pathname := "/__intern/client.html";
     location_pathname_above_client := "/";
     process_argv := [];
     process_cwd := EmptyString;
     pathUtil_isAbsolute := None;
     pathUtil_sep := "/";
     console_defined := true;
     toUrl := fun id => "/__intern/" +:+ id |}.

(** A page opened from a project directory, outside a remote session. *)
Definition localBrowserHost : Host :=
  {| has_host_browser := true;
     has_host_node := false;
     location_search := "?config=tests/intern";
     location_pathname := "/app/node_modules/intern/client.html";
     location_pathname_above_client := "/app/";
     process_argv := [];
     process_cwd := EmptyString;
     pathUtil_isAbsolute := None;
     pathUtil_sep := "/";
     console_defined := true;
     toUrl := fun id => "/app/node_modules/" +:+ id |}.

(** Node on a POSIX system. *)
Definition nodeHost : Host :=
  {| has_host_browser := false;
     has_host_node := true;
     location_search := EmptyString;
     location_pathname := EmptyString;
     location_pathname_above_client := EmptyString;
     process_argv := ["node"; "client.js"; "--config=tests/intern";
                      "--excludeInstrumentation=tests"; "--suites=unit"];
     process_cwd := "/home/project";
     pathUtil_isAbsolute := Some (fun path => bool_decide (charAt0 path = Some "/"%char));
     pathUtil_sep := "/";
     console_defined := true;
     toUrl := fun id => "/home/project/node_modules/" +:+ id |}.

(** Paths that are already normal stay as they are; the message of an
    error is its name, a colon and its message. *)
Definition exampleUtil : Util :=
  {| normalizePath := fun path => path;
     getErrorMessage := fun e => err_name e +:+ ": " +:+ err_message e;
     assertSafeModuleId := fun _ => Return tt;
     isAbsoluteUrl := test_scheme_or_relative;
     getMergedConfig := fun _ _ =>
       Return {| basePath := None; initialBaseUrl := None; loader := NotAnObject;
                 useLoader := NotAnObject; loaderOptions := None; loaders := None;
                 grep := None; coverageVariable := None;
                 instrumenterOptions := None; proxyPort := None;
                 proxyUrl := None |} |}.

Definition exampleArgs : CommandLineArguments :=
  {| arg_config := Some "tests/intern"; arg_loaders := None |}.

(** A configuration that sets a base path, a base URL for the loader, a
    grep and a proxy port, or leaves them unset. *)
Definition exampleConfig (basePath0 baseUrl0 grep0 : option string)
    (proxyPort0 : option port) : Config :=
  {| basePath := basePath0; initialBaseUrl := None; loader := NotAnObject;
     useLoader := NotAnObject;
     loaderOptions := Some {| baseUrl := baseUrl0; map := None; other_options := ∅ |};
     loaders := None; grep := grep0; coverageVariable := None;
     instrumenterOptions := None; proxyPort := proxyPort0; proxyUrl := None |}.

(** Loader options that hold nothing but these wildcard aliases. *)
Definition starOptions (star : gmap string value) : LoaderOptions :=
  {| baseUrl := None; map := Some {["*" := star]}; other_options := ∅ |}.

Definition noOptions : LoaderOptions :=
  {| baseUrl := None; map := None; other_options := ∅ |}.

(** The bootstrap loader, which carries Node's [require]; and a loader
    that exports itself and is taken not to carry it. *)
Definition dojoLoader : PreExecutor.AmdLoader :=
  {| PreExecutor.loader_name := "dojo"; PreExecutor.has_config := false;
     PreExecutor.has_nodeRequire := true |}.

Definition requirejsLoader : PreExecutor.AmdLoader :=
  {| PreExecutor.loader_name := "requirejs"; PreExecutor.has_config := true;
     PreExecutor.has_nodeRequire := false |}.

(** The URL of a path in a document served from localhost, port 9000: a
    URL with a scheme is left as it is. Paths are taken to begin with one
    slash and to be normal. *)
Definition documentUrl (url : string) : string :=
  if test_scheme url then url else "http://localhost:9000" +:+ url.

(** A module system that knows the module [requirejs], which exports its
    loader. *)
Definition exampleModules : PreExecutor.Modules :=
  {| PreExecutor.require_resolve := fun id =>
       if String.eqb id "requirejs" then Some "/home/project/node_modules/requirejs/bin/r.js"
       else None;
     PreExecutor.module_findPath := None;
     PreExecutor.module_body := fun _ g => (g, PreExecutor.ExportsFunction requirejsLoader);
     PreExecutor.script_load := fun _ _ => None;
     PreExecutor.script_src := documentUrl |}.

Definition nodeLoaders : Loaders :=
  {| loaders_host_node := Some "requirejs"; loaders_host_browser := None |}.

(** Node after the bootstrap loader has run and [requirejs] has been
    loaded once. *)
Definition cachedRuntime : PreExecutor.Runtime :=
  {| PreExecutor.globals :=
       {| PreExecutor.g_require := Some dojoLoader; PreExecutor.g_define := true;
          PreExecutor.g_curl := None; PreExecutor.g_requirejs := None |};
     PreExecutor.cache :=
       {["/home/project/node_modules/requirejs/bin/r.js" :=
           PreExecutor.ExportsFunction requirejsLoader]};
     PreExecutor.executed := ["/home/project/node_modules/requirejs/bin/r.js"];
     PreExecutor.scripts := [];
     PreExecutor.configured := [] |}.

(** The aliases of the example in the specification. *)
Definition aliases_a1_b2 : gmap string value :=
  <["b" := VNumber (Finite 2)]> {["a" := VNumber (Finite 1)]}.

Definition aliases_a3 : gmap string value := {["a" := VNumber (Finite 3)]}.

Definition aliases_a3_b2 : gmap string value :=
  <["b" := VNumber (Finite 2)]> {["a" := VNumber (Finite 3)]}.

Definition fatal : ErrorObject :=
  {| err_name := "Error"; err_message := "Failed to load AMD loader";
     err_stack := None; reported := false |}.

End Example.

(** ** Calls in a row, and more examples *)

Module Sequences.
Import PreExecutor.

Section WithHost.
Context `{Engine} `{Host}.

(** [sendErrorToConduit] called for each error in turn, up to the first
    call that does not complete. *)
Fixpoint sendErrors (errors : list ErrorObject) (page : Page) : Page * outcome :=
  match errors with
  | [] => (page, Completed)
  | error :: rest =>
      match sendErrorToConduit error page with
      | (page, Completed) => sendErrors rest page
      | stopped => stopped
      end
  end.

End WithHost.

Section WithModules.
Context `{Engine} `{Host} `{Util} `{Modules}.

(** Lines 375-379 with lines 128-137: [getConfig] as [run] calls it, the
    default base URL being the [baseUrl] of the default loader options.
    Where there is none, reading it throws once the module id has been
    checked. *)
Definition run_getConfig (defaultLoaderOptions : option LoaderOptions)
    (args : CommandLineArguments) (earlyEvents : list EarlyEvent)
  : completion (ResolvedConfig * list EarlyEvent) :=
  match defaultLoaderOptions ≫= baseUrl with
  | Some defaultBaseUrl => getConfig defaultBaseUrl args earlyEvents
  | None =>
      match arg_config args with
      | None | Some EmptyString => Throw (Error ("Missing required argument " +:+ quoted "config"))
      | Some moduleId => _ ← assertSafeModuleId moduleId; Throw TypeError
      end
  end.

(** Lines 445-451: the first two stages of the pipeline of [run],
    [getConfig] and then [swapLoader] on the base path, the loaders and the
    loader options of the configuration. The result has the configuration,
    the early events, the loader, and the loader options as the swap left
    them. (A base path that is undefined would concatenate as the word
    undefined.) *)
Definition run_swapLoader (defaultLoaderOptions : option LoaderOptions)
    (args : CommandLineArguments) (earlyEvents : list EarlyEvent) (rt : Runtime)
  : Runtime
    * completion (ResolvedConfig * list EarlyEvent * AmdLoader * option LoaderOptions) :=
  match run_getConfig defaultLoaderOptions args earlyEvents with
  | Throw e => (rt, Throw e)
  | Return (config, earlyEvents) =>
      match swapLoader defaultLoaderOptions (default "undefined" (r_basePath config))
              (r_loaders config) (Some (r_loaderOptions config)) rt with
      | (rt, Return (loader, loaderOptions)) =>
          (rt, Return (config, earlyEvents, loader, loaderOptions))
      | (rt, Throw e) => (rt, Throw e)
      end
  end.

End WithModules.

(** The part of a raw argument that becomes its value, if it has one
    (line 32 reads [parts[1]]). *)
Definition valuePart (arg : string) : option string :=
  match split "="%char arg with
  | _ :: part1 :: _ => Some part1
  | _ => None
  end.

(** The characters of [s] are all other than [c]. *)
Definition without (c : ascii) (s : string) : bool :=
  forallb_string (fun a => negb (Ascii.eqb a c)) s.

End Sequences.

Export Sequences.

Module MoreExamples.
Import Example.

(** Node after the bootstrap loader has run, before any other loader. *)
Definition bootRuntime : PreExecutor.Runtime :=
  {| PreExecutor.globals :=
       {| PreExecutor.g_require := Some dojoLoader; PreExecutor.g_define := true;
          PreExecutor.g_curl := None; PreExecutor.g_requirejs := None |};
     PreExecutor.cache := ∅;
     PreExecutor.executed := [];
     PreExecutor.scripts := [];
     PreExecutor.configured := [] |}.

Definition browserLoaders : Loaders :=
  {| loaders_host_node := None; loaders_host_browser := Some "lib/require.js" |}.

(** A configuration that still uses the two deprecated keys. *)
Definition deprecatedConfig : Config :=
  {| basePath := None; initialBaseUrl := None;
     loader := AnObject (starOptions aliases_a3);
     useLoader := AnObject nodeLoaders;
     loaderOptions := Some noOptions;
     loaders := Some browserLoaders;
     grep := None; coverageVariable := None; instrumenterOptions := None;
     proxyPort := None; proxyUrl := None |}.

(** The default loader options of a run from a project directory. *)
Definition internDefaults : LoaderOptions :=
  {| baseUrl := Some "/home/project/node_modules";
     map := Some {["*" := aliases_a1_b2]};
     other_options := ∅ |}.

(** A configuration module that asks for a loader script in the browser. *)
Definition browserUtil : Util :=
  {| normalizePath := fun path => path;
     getErrorMessage := fun e => err_name e +:+ ": " +:+ err_message e;
     assertSafeModuleId := fun _ => Return tt;
     isAbsoluteUrl := test_scheme_or_relative;
     getMergedConfig := fun _ _ =>
       Return {| basePath := None; initialBaseUrl := None; loader := NotAnObject;
                 useLoader := NotAnObject; loaderOptions := None;
                 loaders := Some browserLoaders;
                 grep := None; coverageVariable := None;
                 instrumenterOptions := None; proxyPort := None;
                 proxyUrl := None |} |}.

(** A document in which every script loads and registers RequireJS. *)
Definition browserModules : PreExecutor.Modules :=
  {| PreExecutor.require_resolve := fun _ => None;
     PreExecutor.module_findPath := None;
     PreExecutor.module_body := fun _ g => (g, PreExecutor.ExportsOther);
     PreExecutor.script_load := fun _ g =>
       Some {| PreExecutor.g_require := Some requirejsLoader;
               PreExecutor.g_define := true;
               PreExecutor.g_curl := PreExecutor.g_curl g;
               PreExecutor.g_requirejs := Some requirejsLoader |};
     PreExecutor.script_src := documentUrl |}.

(** Node once [requirejs] has taken the place of the bootstrap loader: its
    module has run and is cached, and the global [require] is the loader
    that the module exported. *)
Definition requirejsRuntime : PreExecutor.Runtime :=
  {| PreExecutor.globals :=
       {| PreExecutor.g_require := Some requirejsLoader; PreExecutor.g_define := false;
          PreExecutor.g_curl := None; PreExecutor.g_requirejs := None |};
     PreExecutor.cache :=
       {["/home/project/node_modules/requirejs/bin/r.js" :=
           PreExecutor.ExportsFunction requirejsLoader]};
     PreExecutor.executed := ["/home/project/node_modules/requirejs/bin/r.js"];
     PreExecutor.scripts := [];
     PreExecutor.configured := [] |}.

(** A configuration whose deprecated keys are null, beside loader options
    and loaders of the current kind. *)
Definition nullLoaderConfig : Config :=
  {| basePath := None; initialBaseUrl := None;
     loader := Null;
     useLoader := Null;
     loaderOptions := Some {| baseUrl := Some "lib"; map := None; other_options := ∅ |};
     loaders := Some browserLoaders;
     grep := None; coverageVariable := None; instrumenterOptions := None;
     proxyPort := None; proxyUrl := None |}.

(** An error whose message holds markup. *)
Definition markupError : ErrorObject :=
  {| err_name := "Error"; err_message := "a < b && c";
     err_stack := None; reported := false |}.

(** A configuration that names the coverage variable and brings
    instrumenter options of its own. *)
Definition coverageConfig : Config :=
  {| basePath := None; initialBaseUrl := None; loader := NotAnObject;
     useLoader := NotAnObject;
     loaderOptions := None; loaders := None; grep := None;
     coverageVariable := Some "__internCoverage";
     instrumenterOptions := Some {["noCompact" := VBool true]};
     proxyPort := None; proxyUrl := None |}.

End MoreExamples.

(** * Properties *)

(** ** parseArguments *)

Module ParseArgsProps.
Import ParseArgs.

Section WithEngine.
Context `{Engine}.

Lemma get_own (args : Args) key :
  Object_prototype key = None -> get args key = args !! key.
Proof. intros Hp. unfold get. destruct (args !! key); [done | exact Hp]. Qed.

Lemma interpret_not_array decoded v :
  interpret decoded = Return v -> isArray v = false.
Proof.
  unfold interpret. intros Hi.
  repeat case_match; simplify_eq; done.
Qed.

Lemma parseToken_not_array decode arg key v :
  parseToken decode arg = Return (key, v) -> isArray v = false.
Proof.
  unfold parseToken. intros Hp.
  destruct (split "=" arg) as [|p0 [|p1 ps]]; simplify_eq/=; try done.
  destruct (decode p1) as [d|]; simplify_eq/=.
  destruct (interpret d) as [w|] eqn:Hi; simplify_eq/=.
  by eapply interpret_not_array.
Qed.

Lemma parseTokens_not_array decode rawArgs tokens :
  parseTokens decode rawArgs = Return tokens ->
  Forall (fun kv => isArray kv.2 = false) tokens.
Proof.
  revert tokens. induction rawArgs as [|arg rest IH]; intros tokens Hp; simplify_eq/=.
  - constructor.
  - destruct (parseToken decode arg) as [[k v]|] eqn:Ht; simplify_eq/=.
    destruct (parseTokens decode rest) as [kvs|]; simplify_eq/=.
    constructor; [by eapply parseToken_not_array | by apply IH].
Qed.

(** The loop is the tokens read, then recorded from left to right. *)
Lemma parseInto_tokens decode rawArgs args :
  parseInto decode rawArgs args =
  (tokens ← parseTokens decode rawArgs;
   Return (foldl (fun a kv => record a kv.1 kv.2) args tokens)).
Proof.
  revert args. induction rawArgs as [|arg rest IH]; intros args; [done|].
  cbn [parseInto parseTokens].
  destruct (parseToken decode arg) as [kv|e]; [|done].
  cbn. rewrite IH. by destruct (parseTokens decode rest).
Qed.

Lemma valuesOf_snoc_eq key tokens v :
  valuesOf key (tokens ++ [(key, v)]) = valuesOf key tokens ++ [v].
Proof.
  unfold valuesOf. rewrite filter_app, fmap_app. f_equal.
  rewrite filter_cons_True by done. done.
Qed.

Lemma valuesOf_snoc_ne key k tokens v :
  k ≠ key -> valuesOf key (tokens ++ [(k, v)]) = valuesOf key tokens.
Proof.
  intros Hne. unfold valuesOf. rewrite filter_app, fmap_app.
  rewrite filter_cons_False by done. by rewrite filter_nil, app_nil_r.
Qed.

Lemma valuesOf_not_array key tokens :
  Forall (fun kv => isArray kv.2 = false) tokens ->
  Forall (fun v => isArray v = false) (valuesOf key tokens).
Proof.
  unfold valuesOf. induction 1 as [|[k v] tokens Hv _ IH]; [constructor|].
  destruct (decide (k = key)) as [->|Hne].
  - rewrite filter_cons_True by done. by constructor.
  - by rewrite filter_cons_False.
Qed.

(** One more token: the key recorded keeps what the claim asks for. *)
Lemma record_collected (args : Args) tokens k v :
  Object_prototype k = None ->
  Forall (fun kv => isArray kv.2 = false) tokens ->
  (forall key, args !! key = collected (valuesOf key tokens)) ->
  forall key, record args k v !! key = collected (valuesOf key (tokens ++ [(k, v)])).
Proof.
  intros Hproto Hscalar Hinv key. unfold record. rewrite get_own by done.
  destruct (decide (k = key)) as [->|Hne].
  - rewrite valuesOf_snoc_eq. pose proof (Hinv key) as Hk.
    pose proof (valuesOf_not_array key tokens Hscalar) as Hvs.
    destruct (valuesOf key tokens) as [|v0 [|v1 vs]]; cbn in Hk; rewrite Hk.
    + by rewrite lookup_insert_eq.
    + rewrite lookup_insert_eq. apply Forall_cons_1 in Hvs as [Hv0 _].
      by destruct v0.
    + by rewrite lookup_insert_eq.
  - rewrite valuesOf_snoc_ne by done. rewrite <- Hinv.
    destruct (args !! k); by rewrite lookup_insert_ne.
Qed.

Lemma foldl_record_collected tokens :
  Forall (fun kv => Object_prototype kv.1 = None) tokens ->
  Forall (fun kv => isArray kv.2 = false) tokens ->
  forall key,
    foldl (fun a kv => record a kv.1 kv.2) (∅ : Args) tokens !! key
    = collected (valuesOf key tokens).
Proof.
  induction tokens as [|[k v] tokens IH] using rev_ind; intros Hproto Hscalar key.
  - done.
  - rewrite foldl_app. cbn [foldl fst snd].
    apply Forall_app in Hproto as [Hproto Hk].
    apply Forall_app in Hscalar as [Hscalar _].
    apply Forall_cons_1 in Hk as [Hk _].
    apply record_collected; auto.
Qed.

(** Where no key of the input names a property of [Object.prototype], the
    object returned holds, for every key, the value of its one token or the
    array of the values of its tokens in their order, and no token value is
    itself an array. *)
Theorem parseArguments_collects decode rawArgs (args : Args) :
  parseArguments rawArgs decode = Return args ->
  exists tokens,
    parseTokens decode rawArgs = Return tokens
    /\ Forall (fun kv => isArray kv.2 = false) tokens
    /\ (Forall (fun kv => Object_prototype kv.1 = None) tokens ->
        forall key, args !! key = collected (valuesOf key tokens)).
Proof.
  unfold parseArguments. rewrite parseInto_tokens. intros Hp.
  destruct (parseTokens decode rawArgs) as [tokens|] eqn:Ht; simplify_eq/=.
  exists tokens. split; [done|].
  pose proof (parseTokens_not_array _ _ _ Ht) as Hscalar.
  split; [done|]. intros Hproto key. by apply foldl_record_collected.
Qed.

(** C7, at the input where the code departs from it: a key given once that
    names a property of [Object.prototype], here [constructor], is found
    [in] the empty argument object, so its one value lands in an array
    behind the inherited value. *)
Theorem C7_inherited_key_gets_array (f : value) :
  Object_prototype "constructor" = Some f ->
  isArray f = false ->
  fromCommandLine ["--constructor=x"]
  = Return {[ "constructor" := VArray [f; VString "x"] ]}.
Proof.
  intros Hf Hscalar. unfold fromCommandLine, parseArguments.
  cbn [parseInto parseToken split Ascii.eqb Bool.eqb hd strip_dashes
       mbind completion_bind JS.bind].
  replace (interpret "x") with (Return (VString "x")) by (vm_compute; reflexivity).
  cbn [mbind completion_bind JS.bind fst snd].
  unfold record, get. rewrite lookup_empty, Hf.
  by destruct f.
Qed.

End WithEngine.

Lemma parseArguments_collects_witness :
  exists tokens,
    @parseTokens Example.exampleEngine (fun str => Return str)
      ["--suites=a"; "--grep=x"; "--suites=b"; "-v"] = Return tokens
    /\ Forall (fun kv => isArray kv.2 = false) tokens
    /\ (Forall (fun kv => @Object_prototype Example.exampleEngine kv.1 = None) tokens ->
        forall key,
          (<["v" := VBool true]>
             (<["grep" := VString "x"]>
                {["suites" := VArray [VString "a"; VString "b"]]}) : Args) !! key
          = collected (valuesOf key tokens)).
Proof.
  apply (@parseArguments_collects Example.exampleEngine).
  vm_compute. reflexivity.
Defined.

Lemma C7_inherited_key_gets_array_witness :
  @fromCommandLine Example.exampleEngine ["--constructor=x"]
  = Return {[ "constructor" := VArray [VFunction "Object"; VString "x"] ]}.
Proof.
  apply (@C7_inherited_key_gets_array Example.exampleEngine (VFunction "Object"));
    reflexivity.
Defined.

End ParseArgsProps.

(** ** PreExecutor.getArguments *)

Module GetArgumentsProps.
Import ParseArgs PreExecutor.

Section WithHost.
Context `{Engine} `{Host}.

Lemma get_insert_eq (args : Args) key v : get (<[key := v]> args) key = Some v.
Proof. unfold get. by rewrite lookup_insert_eq. Qed.

Lemma get_insert_ne (args : Args) k key v :
  k ≠ key -> get (<[k := v]> args) key = get args key.
Proof. intros Hne. unfold get. by rewrite lookup_insert_ne. Qed.

Lemma normalizeList_other kwArgs name key :
  name ≠ key -> get (normalizeList kwArgs name) key = get kwArgs key.
Proof.
  intros Hne. unfold normalizeList.
  destruct (get kwArgs name) as [v|]; [|done].
  destruct (isArray v); [done|]. by apply get_insert_ne.
Qed.

(** The four list-valued names leave [excludeInstrumentation] alone. *)
Lemma normalizeLists_excludeInstrumentation kwArgs :
  get (foldl normalizeList kwArgs listNames) "excludeInstrumentation"
  = get kwArgs "excludeInstrumentation".
Proof.
  unfold listNames. cbn [foldl].
  by rewrite !normalizeList_other.
Qed.

(** C10: in the arguments that [getArguments] returns, the string true has
    become the boolean, any other string has become the RegExp built from
    it, and whatever else the parser left under [excludeInstrumentation]
    (a boolean, an object, an array, or nothing) is as the parser left it. *)
Theorem C10_excludeInstrumentation_normalized (parsed result : Args) :
  rawArguments = Return parsed ->
  getArguments = Return result ->
  get result "excludeInstrumentation"
  = match get parsed "excludeInstrumentation" with
    | Some (VString s) =>
        if String.eqb s "true" then Some (VBool true)
        else Some (VRegExp {| source := s; flags := EmptyString |})
    | other => other
    end.
Proof.
  unfold getArguments. intros -> Hr. cbn [mbind completion_bind JS.bind] in Hr.
  pose proof (normalizeLists_excludeInstrumentation parsed) as Hlists.
  set (kwArgs := foldl normalizeList parsed listNames) in *.
  unfold normalizeExcludeInstrumentation in Hr. rewrite Hlists in Hr.
  destruct (get parsed "excludeInstrumentation") as [[b|n|s|r|items|text|name]|];
    try (injection Hr as <-; exact Hlists).
  destruct (String.eqb s "true").
  - injection Hr as <-. apply get_insert_eq.
  - destruct (RegExp_accepts s EmptyString); [|discriminate].
    injection Hr as <-. apply get_insert_eq.
Qed.

(** [getArguments] returns whenever the parser does and the engine accepts
    the pattern, if one is given. *)
Lemma getArguments_returns (parsed : Args) :
  rawArguments = Return parsed ->
  match get parsed "excludeInstrumentation" with
  | Some (VString s) => String.eqb s "true" || RegExp_accepts s EmptyString
  | _ => true
  end = true ->
  exists result, getArguments = Return result.
Proof.
  unfold getArguments. intros -> Hok. cbn [mbind completion_bind JS.bind].
  unfold normalizeExcludeInstrumentation.
  rewrite normalizeLists_excludeInstrumentation.
  destruct (get parsed "excludeInstrumentation") as [[b|n|s|r|items|text|name]|]; eauto.
  destruct (String.eqb s "true"); [eauto|].
  cbn in Hok. rewrite Hok. eauto.
Qed.

End WithHost.

Lemma C10_excludeInstrumentation_normalized_witness :
  get (H := Example.exampleEngine)
    (<["suites" := VArray [VString "unit"]]>
       (<["excludeInstrumentation" := VRegExp {| source := "tests"; flags := EmptyString |}]>
          {["config" := VString "tests/intern"]}))
    "excludeInstrumentation"
  = Some (VRegExp {| source := "tests"; flags := EmptyString |}).
Proof.
  etrans.
  - apply (@C10_excludeInstrumentation_normalized Example.exampleEngine Example.nodeHost
             (<["suites" := VString "unit"]>
                (<["excludeInstrumentation" := VString "tests"]>
                   {["config" := VString "tests/intern"]}))).
    + vm_compute. reflexivity.
    + vm_compute. reflexivity.
  - vm_compute. reflexivity.
Defined.

End GetArgumentsProps.

(** ** The string tests *)

Module TextProps.

Lemma append_nil_l s : EmptyString +:+ s = s.
Proof. reflexivity. Qed.

Lemma append_cons c s t : String c s +:+ t = String c (s +:+ t).
Proof. reflexivity. Qed.

Ltac string_append := rewrite ?append_cons, ?append_nil_l.

Lemma string_app_assoc (s t u : string) : (s +:+ t) +:+ u = s +:+ t +:+ u.
Proof. induction s as [|c s IH]; [done|]. string_append. by rewrite IH. Qed.

Lemma forallb_string_impl (p q : ascii -> bool) s :
  (forall c, p c = true -> q c = true) ->
  forallb_string p s = true -> forallb_string q s = true.
Proof.
  intros Hpq. induction s as [|c s IH]; [done|]. cbn.
  rewrite !andb_true_iff. intros [Hc Hs]. auto.
Qed.

Lemma is_gim_not_slash c : is_gim c = true -> negb (Ascii.eqb c "/") = true.
Proof.
  unfold is_gim. rewrite !orb_true_iff, !Ascii.eqb_eq.
  intros [[->| ->]| ->]; reflexivity.
Qed.

Lemma split_last_absent c s :
  forallb_string (fun a => negb (Ascii.eqb a c)) s = true -> split_last c s = None.
Proof.
  induction s as [|a s IH]; [done|]. cbn [forallb_string split_last].
  rewrite andb_true_iff, negb_true_iff. intros [Ha Hs].
  by rewrite IH, Ha.
Qed.

Lemma split_last_app c p f :
  forallb_string (fun a => negb (Ascii.eqb a c)) f = true ->
  split_last c (p +:+ String c f) = Some (p, f).
Proof.
  intros Hf. induction p as [|a p IH]; string_append; cbn [split_last].
  - rewrite split_last_absent by done. by rewrite Ascii.eqb_refl.
  - by rewrite IH.
Qed.

Lemma split_last_Some c s p f :
  split_last c s = Some (p, f) ->
  s = p +:+ String c f /\ forallb_string (fun a => negb (Ascii.eqb a c)) f = true.
Proof.
  revert p. induction s as [|a s IH]; intros p; [done|]. cbn [split_last].
  destruct (split_last c s) as [[p' f']|] eqn:Hs.
  - intros [= <- <-]. destruct (IH p' eq_refl) as [-> Hf]. done.
  - destruct (Ascii.eqb a c) eqn:Hac; [|done].
    intros [= <- <-]. apply Ascii.eqb_eq in Hac as ->. split; [done|].
    clear IH. induction s as [|b s IH]; [done|].
    cbn [split_last forallb_string] in Hs |- *.
    destruct (split_last c s) as [[? ?]|]; [done|].
    destruct (Ascii.eqb b c); [done|]. cbn [negb andb]. by apply IH.
Qed.

(** [exec_grep_literal] finds exactly the strings of the literal form, and
    their two parts. *)
Lemma exec_grep_literal_complete s pattern flags :
  literalForm s pattern flags -> exec_grep_literal s = Some (pattern, flags).
Proof.
  intros (-> & Hp & Hf). string_append. cbn [exec_grep_literal].
  rewrite split_last_app.
  - by rewrite Hp, Hf.
  - eapply forallb_string_impl; [apply is_gim_not_slash | done].
Qed.

Lemma exec_grep_literal_sound s pattern flags :
  exec_grep_literal s = Some (pattern, flags) -> literalForm s pattern flags.
Proof.
  unfold exec_grep_literal, literalForm.
  destruct s as [|c rest]; [done|].
  destruct (decide (c = "/"%char)) as [->|Hc].
  - destruct (split_last "/" rest) as [[p f]|] eqn:Hs; [|done].
    destruct (forallb_string _ p) eqn:Hp; [|done].
    destruct (forallb_string is_gim f) eqn:Hf; [|done].
    intros [= <- <-]. apply split_last_Some in Hs as [-> _]. done.
  - intros Hx. exfalso. apply Hc.
    destruct c as [[] [] [] [] [] [] [] []]; try done.
Qed.

Lemma exec_grep_literal_None s :
  (forall pattern flags, ~ literalForm s pattern flags) -> exec_grep_literal s = None.
Proof.
  intros Hno. destruct (exec_grep_literal s) as [[p f]|] eqn:Hx; [|done].
  by apply exec_grep_literal_sound, Hno in Hx.
Qed.

Lemma last_char_snoc s c : last_char (s +:+ String c EmptyString) = Some c.
Proof.
  induction s as [|a s IH]; [done|].
  string_append. destruct s; [done|]. exact IH.
Qed.

Lemma last_char_with_final_slash s : last_char (with_final_slash s) = Some "/"%char.
Proof.
  unfold with_final_slash. case_bool_decide; [done|]. apply last_char_snoc.
Qed.

End TextProps.

(** ** PreExecutor.getConfig *)

Module GetConfigProps.
Import PreExecutor TextProps.

Section WithHost.
Context `{Engine} `{Host} `{Util}.

Lemma bind_Return {A B} (c : completion A) (k : A -> completion B) b :
  c ≫= k = Return b -> exists a, c = Return a /\ k a = Return b.
Proof. destruct c as [a|e]; [eauto | done]. Qed.

Lemma resolvePathsAndGrep_Return args config basePath1 baseUrl1 grep1 :
  resolvePathsAndGrep args config = Return (basePath1, baseUrl1, grep1) ->
  exists isAbsolute,
    resolveBasePath args config = Return (basePath1, isAbsolute)
    /\ resolveBaseUrl basePath1 isAbsolute (baseUrl (effectiveLoaderOptions config))
       = Return baseUrl1
    /\ compileGrep (grep config) = Return grep1.
Proof.
  unfold resolvePathsAndGrep. intros Hr.
  apply bind_Return in Hr as ([bp isAbs] & Hbp & Hr).
  apply bind_Return in Hr as (bu & Hbu & Hr).
  apply bind_Return in Hr as (g & Hg & Hr).
  injection Hr as <- <- <-. eauto.
Qed.

(** What a configuration that resolves is made of. *)
Lemma resolveConfig_Return args config events r events' :
  resolveConfig args config events = Return (r, events') ->
  exists port,
    resolvePathsAndGrep args config
    = Return (r_basePath r, baseUrl (r_loaderOptions r), r_grep r)
    /\ resolveProxyPort (proxyPort config) = Return port
    /\ r_proxyPort r = port
    /\ r_proxyUrl r = resolveProxyUrl (proxyUrl config) port.
Proof.
  unfold resolveConfig. intros Hr.
  apply bind_Return in Hr as ([[bp bu] g] & Hpaths & Hr).
  apply bind_Return in Hr as (port & Hport & Hr).
  injection Hr as <- _. eauto.
Qed.

Lemma resolveConfig_returns args config events paths port :
  resolvePathsAndGrep args config = Return paths ->
  resolveProxyPort (proxyPort config) = Return port ->
  exists r events', resolveConfig args config events = Return (r, events').
Proof.
  intros Hpaths Hport. unfold resolveConfig. rewrite Hpaths.
  destruct paths as [[bp bu] g]. cbn [mbind completion_bind JS.bind].
  rewrite Hport. cbn [mbind completion_bind JS.bind]. eauto.
Qed.

(** A configuration resolved by [getConfig] is one resolved by
    [resolveConfig] from the merged configuration. *)
Lemma getConfig_Return defaultBaseUrl args events r events' :
  getConfig defaultBaseUrl args events = Return (r, events') ->
  exists moduleId config,
    arg_config args = Some moduleId
    /\ getMergedConfig
         (replace_final_slash ("/" +:+ with_js_extension moduleId) defaultBaseUrl) args
       = Return config
    /\ resolveConfig args config events = Return (r, events').
Proof.
  unfold getConfig. intros Hr.
  destruct (arg_config args) as [[|c moduleId]|]; try done.
  apply bind_Return in Hr as (_ & _ & Hr).
  apply bind_Return in Hr as (config & Hconfig & Hr). eauto.
Qed.

(** C8: a port that is unset becomes 9000; a string that the engine reads
    as a number becomes that number; a string that it reads as NaN makes
    the resolution fail, with the error of line 250 whenever the paths and
    the grep before it resolve; a proxy URL that is unset is built from the
    port. The last part says that the first is not empty. *)
Theorem C8_proxyPort_and_proxyUrl args config events :
  (forall r events', resolveConfig args config events = Return (r, events') ->
     r_proxyPort r = match proxyPort config with
                     | None => Finite 9000
                     | Some (PortString s) => StringToNumber s
                     | Some (PortNumber n) => n
                     end
     /\ r_proxyUrl r = match proxyUrl config with
                       | Some url => url
                       | None => "http://localhost:" +:+ NumberToString (r_proxyPort r) +:+ "/"
                       end)
  /\ (forall s, proxyPort config = Some (PortString s) ->
        isNaN_number (StringToNumber s) = true ->
        resolveConfig args config events
        = match resolvePathsAndGrep args config with
          | Return _ => Throw (Error "proxyPort must be a number")
          | Throw e => Throw e
          end)
  /\ (forall paths, resolvePathsAndGrep args config = Return paths ->
        match proxyPort config with
        | Some (PortString s) => isNaN_number (StringToNumber s) = false
        | _ => True
        end ->
        exists r events', resolveConfig args config events = Return (r, events')).
Proof.
  split; [|split].
  - intros r events' Hr.
    apply resolveConfig_Return in Hr as (port & _ & Hport & Hp & Hu).
    rewrite Hu, Hp. split; [|done].
    unfold resolveProxyPort in Hport.
    destruct (proxyPort config) as [[n|s]|]; simplify_eq; try done.
    destruct (isNaN_number (StringToNumber s)); by simplify_eq.
  - intros s Hs Hnan. unfold resolveConfig.
    destruct (resolvePathsAndGrep args config) as [[[bp bu] g]|e]; [|done].
    cbn [mbind completion_bind JS.bind].
    unfold resolveProxyPort. by rewrite Hs, Hnan.
  - intros paths Hpaths Hport.
    destruct (resolveProxyPort (proxyPort config)) as [port|e] eqn:Hp.
    + by eapply resolveConfig_returns.
    + unfold resolveProxyPort in Hp.
      destruct (proxyPort config) as [[n|s]|]; simplify_eq.
      by rewrite Hport in Hp.
Qed.

Lemma compileGrep_Return grep1 r :
  compileGrep grep1 = Return r ->
  r = match grep1 with
      | None => {| source := EmptyString; flags := EmptyString |}
      | Some text =>
          match exec_grep_literal text with
          | Some (pattern, flags) => {| source := pattern; flags := flags |}
          | None => {| source := text; flags := "i" |}
          end
      end.
Proof.
  unfold compileGrep, newRegExp. intros Hc.
  repeat case_match; by simplify_eq.
Qed.

(** C9: a grep that is unset compiles to the empty pattern, the empty string
    to the empty pattern with the flag i, and both match every input; a
    string of the literal form compiles to its pattern and its flags; any
    other string compiles whole, with the flag i. The engine is asked for
    one thing: that the empty pattern matches every input. *)
Theorem C9_grep_compiled args config events r events' :
  resolveConfig args config events = Return (r, events') ->
  (forall flags input,
     RegExp_test {| source := EmptyString; flags := flags |} input = true) ->
  match grep config with
  | None =>
      r_grep r = {| source := EmptyString; flags := EmptyString |}
      /\ forall input, RegExp_test (r_grep r) input = true
  | Some text =>
      (text = EmptyString ->
       r_grep r = {| source := EmptyString; flags := "i" |}
       /\ forall input, RegExp_test (r_grep r) input = true)
      /\ (forall pattern flags, literalForm text pattern flags ->
          r_grep r = {| source := pattern; flags := flags |})
      /\ ((forall pattern flags, ~ literalForm text pattern flags) ->
          r_grep r = {| source := text; flags := "i" |})
  end.
Proof.
  intros Hr Hempty.
  apply resolveConfig_Return in Hr as (_ & Hpaths & _).
  apply resolvePathsAndGrep_Return in Hpaths as (_ & _ & _ & Hgrep).
  apply compileGrep_Return in Hgrep.
  destruct (grep config) as [text|].
  - split; [|split].
    + intros ->. cbn in Hgrep. by rewrite Hgrep.
    + intros p f Hform. by rewrite (exec_grep_literal_complete _ _ _ Hform) in Hgrep.
    + intros Hno. by rewrite (exec_grep_literal_None _ Hno) in Hgrep.
  - by rewrite Hgrep.
Qed.

(** The grep compiles whenever the engine accepts what it is given. *)
Lemma compileGrep_returns grep1 :
  match grep1 with
  | None => RegExp_accepts EmptyString EmptyString
  | Some text =>
      match exec_grep_literal text with
      | Some (pattern, flags) => RegExp_accepts pattern flags
      | None => RegExp_accepts text "i"
      end
  end = true ->
  exists r, compileGrep grep1 = Return r.
Proof.
  unfold compileGrep, newRegExp. intros Hok.
  repeat case_match; simplify_eq; eauto.
Qed.

Lemma resolveBasePath_final_slash args config basePath1 isAbsolute :
  has_host_node || has_host_browser = true ->
  resolveBasePath args config = Return (basePath1, isAbsolute) ->
  exists path,
    basePath1 = Some path /\ last_char path = Some "/"%char
    /\ isAbsolute = Some isAbsoluteBaseUrl.
Proof.
  unfold resolveBasePath, isAbsoluteBaseUrl. intros Hhost Hr.
  destruct has_host_node.
  - injection Hr as <- <-. eexists. split; [done|].
    split; [apply last_char_with_final_slash | done].
  - destruct has_host_browser; [|done].
    apply bind_Return in Hr as (_ & _ & Hr). injection Hr as <- <-.
    eexists. split; [done|].
    split; [apply last_char_with_final_slash | done].
Qed.

(** C3, as the code has it: on a browser or on Node the base path that
    results ends with a slash, and the loader's base URL is that base path
    when it was unset or empty, itself when the test of the host finds it
    absolute, and otherwise the normalised concatenation of the base path
    and it. Nothing makes the result pass the test of the host. *)
Theorem C3_baseUrl_resolved args config events r events' :
  resolveConfig args config events = Return (r, events') ->
  has_host_node || has_host_browser = true ->
  exists basePath1,
    r_basePath r = Some basePath1
    /\ last_char basePath1 = Some "/"%char
    /\ baseUrl (r_loaderOptions r)
       = match baseUrl (effectiveLoaderOptions config) with
         | None | Some EmptyString => Some basePath1
         | Some url =>
             if isAbsoluteBaseUrl url then Some url
             else Some (normalizePath (basePath1 +:+ url))
         end.
Proof.
  intros Hr Hhost.
  apply resolveConfig_Return in Hr as (_ & Hpaths & _).
  apply resolvePathsAndGrep_Return in Hpaths as (isAbs & Hbp & Hbu & _).
  apply resolveBasePath_final_slash in Hbp as (path & Hpath & Hslash & ->); [|done].
  exists path. rewrite Hpath in *. split; [done|]. split; [done|].
  unfold resolveBaseUrl in Hbu.
  destruct (baseUrl (effectiveLoaderOptions config)) as [[|c url]|]; simplify_eq; try done.
  destruct (isAbsoluteBaseUrl (String c url)); by simplify_eq.
Qed.

End WithHost.

Import Example.

Example proxyPort_9001 :
  @resolveConfig exampleEngine nodeHost exampleUtil exampleArgs
    (exampleConfig None None None (Some (PortString "9001"))) []
  = Return ({| r_basePath := Some "/home/project/";
               r_loaderOptions := {| baseUrl := Some "/home/project/"; map := None;
                                     other_options := ∅ |};
               r_loaders := None;
               r_grep := {| source := EmptyString; flags := EmptyString |};
               r_instrumenterOptions := ∅;
               r_proxyPort := Finite 9001;
               r_proxyUrl := "http://localhost:9001/" |}, []).
Proof. vm_compute. reflexivity. Qed.

Example proxyPort_abc :
  @resolveConfig exampleEngine nodeHost exampleUtil exampleArgs
    (exampleConfig None None None (Some (PortString "abc"))) []
  = Throw (Error "proxyPort must be a number").
Proof. vm_compute. reflexivity. Qed.

Example proxyPort_unset :
  @resolveConfig exampleEngine nodeHost exampleUtil exampleArgs
    (exampleConfig None None None None) []
  = Return ({| r_basePath := Some "/home/project/";
               r_loaderOptions := {| baseUrl := Some "/home/project/"; map := None;
                                     other_options := ∅ |};
               r_loaders := None;
               r_grep := {| source := EmptyString; flags := EmptyString |};
               r_instrumenterOptions := ∅;
               r_proxyPort := Finite 9000;
               r_proxyUrl := "http://localhost:9000/" |}, []).
Proof. vm_compute. reflexivity. Qed.

Lemma C8_proxyPort_and_proxyUrl_witness :
  (exists r events',
     @resolveConfig exampleEngine nodeHost exampleUtil exampleArgs
       (exampleConfig None None None (Some (PortString "9001"))) [] = Return (r, events')
     /\ r_proxyPort r = Finite 9001
     /\ r_proxyUrl r = "http://localhost:" +:+ exampleNumberToString (r_proxyPort r) +:+ "/")
  /\ @resolveConfig exampleEngine nodeHost exampleUtil exampleArgs
       (exampleConfig None None None (Some (PortString "abc"))) []
     = Throw (Error "proxyPort must be a number").
Proof.
  pose proof (@C8_proxyPort_and_proxyUrl exampleEngine nodeHost exampleUtil exampleArgs
                (exampleConfig None None None (Some (PortString "9001"))) [])
    as (Hreturned & _ & _).
  pose proof (@C8_proxyPort_and_proxyUrl exampleEngine nodeHost exampleUtil exampleArgs
                (exampleConfig None None None (Some (PortString "abc"))) [])
    as (_ & Hrejected & _).
  split.
  - eexists _, _. split; [exact proxyPort_9001|]. exact (Hreturned _ _ proxyPort_9001).
  - exact (Hrejected "abc" eq_refl eq_refl).
Defined.

Lemma example_empty_pattern flags input :
  exampleRegExpTest {| source := EmptyString; flags := flags |} input = true.
Proof. by destruct input. Qed.

Lemma C9_grep_compiled_witness :
  exists r events',
    @resolveConfig exampleEngine nodeHost exampleUtil exampleArgs
      (exampleConfig None None (Some "/foo/i") None) [] = Return (r, events')
    /\ r_grep r = {| source := "foo"; flags := "i" |}.
Proof.
  eexists _, _. split; [vm_compute; reflexivity|].
  eapply (@C9_grep_compiled exampleEngine nodeHost exampleUtil exampleArgs
            (exampleConfig None None (Some "/foo/i") None) []).
  - vm_compute. reflexivity.
  - exact example_empty_pattern.
  - repeat split.
Defined.

Example grep_plain_string :
  @compileGrep exampleEngine (Some "foo") = Return {| source := "foo"; flags := "i" |}
  /\ @compileGrep exampleEngine (Some "/foo/i") = Return {| source := "foo"; flags := "i" |}
  /\ @compileGrep exampleEngine None = Return {| source := EmptyString; flags := EmptyString |}.
Proof. repeat split. Qed.

(** C3 fails where a browser is given a base path and no base URL for the
    loader: the base URL becomes the base path, a path without a scheme,
    which the test of the browser host (line 206) does not find absolute. *)
Lemma C3_counterexample_browser_base_path :
  @resolveConfig exampleEngine localBrowserHost exampleUtil exampleArgs
    (exampleConfig (Some "/app/") None None None) []
  = Return ({| r_basePath := Some "/app/";
               r_loaderOptions := {| baseUrl := Some "/app/"; map := None;
                                     other_options := ∅ |};
               r_loaders := None;
               r_grep := {| source := EmptyString; flags := EmptyString |};
               r_instrumenterOptions := ∅;
               r_proxyPort := Finite 9000;
               r_proxyUrl := "http://localhost:9000/" |}, [])
  /\ @isAbsoluteBaseUrl localBrowserHost "/app/" = false.
Proof. split; vm_compute; reflexivity. Qed.

Lemma C3_baseUrl_resolved_witness :
  exists r events' basePath1,
    @resolveConfig exampleEngine nodeHost exampleUtil exampleArgs
      (exampleConfig None (Some "lib") None None) [] = Return (r, events')
    /\ r_basePath r = Some basePath1
    /\ last_char basePath1 = Some "/"%char
    /\ baseUrl (r_loaderOptions r) = Some (basePath1 +:+ "lib").
Proof.
  destruct (@C3_baseUrl_resolved exampleEngine nodeHost exampleUtil exampleArgs
              (exampleConfig None (Some "lib") None None) [] _ _ eq_refl eq_refl)
    as (basePath1 & Hpath & Hslash & Hurl).
  eexists _, _, basePath1. split; [reflexivity|]. split; [exact Hpath|].
  split; [exact Hslash|]. exact Hurl.
Defined.

(** A loader that is null takes the place of the loader options, so that
    their base URL counts for nothing and the base path is used. *)
Example baseUrl_with_null_loader :
  exists r events',
    @resolveConfig exampleEngine nodeHost exampleUtil exampleArgs
      MoreExamples.nullLoaderConfig [] = Return (r, events')
    /\ baseUrl (r_loaderOptions r) = Some "/home/project/".
Proof. eexists _, _. split; reflexivity. Qed.

End GetConfigProps.

(** ** PreExecutor.swapLoader *)

Module SwapLoaderProps.
Import PreExecutor.

Section WithHost.
Context `{Engine} `{Host} `{Util} `{Modules}.

(** What the loop of lines 556-560 leaves under each key. *)
Lemma fillStarMap_lookup (defaultStarMap userStarMap : gmap string value) key :
  fillStarMap defaultStarMap userStarMap !! key
  = match userStarMap !! key with
    | Some v => Some v
    | None => match Object_prototype key with
              | Some _ => None
              | None => defaultStarMap !! key
              end
    end.
Proof.
  unfold fillStarMap. revert key.
  apply (map_fold_weak_ind (fun (filled defaults : gmap string value) =>
    forall key,
      filled !! key = match userStarMap !! key with
                      | Some v => Some v
                      | None => match Object_prototype key with
                                | Some _ => None
                                | None => defaults !! key
                                end
                      end)).
  - intros key. rewrite lookup_empty.
    destruct (userStarMap !! key); [done|]. by destruct (Object_prototype key).
  - intros i x defaults filled Hfresh IH key.
    unfold has, get. pose proof (IH i) as Hi. rewrite Hfresh in Hi.
    destruct (decide (i = key)) as [->|Hne].
    + rewrite lookup_insert_eq.
      destruct (filled !! key) as [w|] eqn:Hw.
      * rewrite bool_decide_true by eauto. rewrite Hw.
        destruct (userStarMap !! key); [done|].
        by destruct (Object_prototype key).
      * destruct (userStarMap !! key); [done|].
        destruct (Object_prototype key) as [p|].
        -- rewrite bool_decide_true by eauto. done.
        -- rewrite bool_decide_false by (by intros [? ?]).
           by rewrite lookup_insert_eq.
    + rewrite lookup_insert_ne by done.
      case_bool_decide; [apply IH|].
      rewrite lookup_insert_ne by done. apply IH.
Qed.

(** With no default alias named like a property of [Object.prototype], the
    loop computes the union that prefers the user's entries. *)
Lemma fillStarMap_union (defaultStarMap userStarMap : gmap string value) :
  (forall key, is_Some (defaultStarMap !! key) -> Object_prototype key = None) ->
  fillStarMap defaultStarMap userStarMap = userStarMap ∪ defaultStarMap.
Proof.
  intros Hown. apply map_eq. intros key.
  rewrite fillStarMap_lookup, lookup_union.
  destruct (userStarMap !! key) as [v|]; [by destruct (defaultStarMap !! key)|].
  rewrite (left_id None _).
  destruct (defaultStarMap !! key) as [w|] eqn:Hw.
  - by rewrite (Hown key) by eauto.
  - by destruct (Object_prototype key).
Qed.

Lemma fillStarMap_idempotent (defaultStarMap userStarMap : gmap string value) :
  fillStarMap defaultStarMap (fillStarMap defaultStarMap userStarMap)
  = fillStarMap defaultStarMap userStarMap.
Proof.
  apply map_eq. intros key. rewrite fillStarMap_lookup.
  destruct (fillStarMap defaultStarMap userStarMap !! key) as [v|] eqn:Hv; [done|].
  rewrite fillStarMap_lookup in Hv.
  destruct (userStarMap !! key); [done|]. by destruct (Object_prototype key).
Qed.

(** The merge, by the wildcard aliases that the two sides have. *)
Lemma mergeStarMap_cases defaults user :
  mergeStarMap defaults user
  = match starMap (Some user), starMap defaults with
    | Some userStarMap, Some defaultStarMap =>
        withStarMap (fillStarMap defaultStarMap userStarMap) user
    | _, _ => user
    end.
Proof.
  unfold mergeStarMap, starMap, withStarMap. cbn.
  destruct (map user) as [userMap|]; cbn; [|done].
  destruct (userMap !! "*") as [userStarMap|] eqn:Hu; cbn.
  - destruct defaults as [d|]; cbn; [|done].
    destruct (map d) as [defaultMap|]; cbn; [|done].
    by destruct (defaultMap !! "*").
  - destruct defaults as [d|]; cbn; [|done].
    by destruct (map d) as [defaultMap|].
Qed.

Lemma mergeStarMap_idempotent defaults user :
  mergeStarMap defaults (mergeStarMap defaults user) = mergeStarMap defaults user.
Proof.
  rewrite (mergeStarMap_cases defaults user).
  destruct (starMap (Some user)) as [userStarMap|] eqn:Hu;
    [destruct (starMap defaults) as [defaultStarMap|] eqn:Hd|].
  - rewrite mergeStarMap_cases, Hd.
    unfold starMap, withStarMap. cbn. rewrite lookup_insert_eq. cbn.
    by rewrite fillStarMap_idempotent, insert_insert_eq.
  - by rewrite mergeStarMap_cases, Hu, Hd.
  - by rewrite mergeStarMap_cases, Hu.
Qed.

(** C4, as the code has it: the loader is configured with the defaults and
    then with the user's options. Where both have wildcard aliases, the
    user's wildcard aliases have been filled key by key: a key that the
    user set keeps the user's value; a key that the user did not set takes
    the default's value, unless it is named like a property of
    [Object.prototype], which the test of line 557 finds in the user's map
    and which is therefore not copied. With no default alias named like
    that, the result is the union that prefers the user's entries. Where
    either side has no wildcard aliases, the user's options are handed over
    as they are. *)
Theorem C4_defaults_then_merged_options defaults user loader rt :
  configureLoader defaults (Some user) (Some loader) rt
  = (setConfig loader (Some (mergeStarMap defaults user)) (setConfig loader defaults rt),
     Return (loader, Some (mergeStarMap defaults user)))
  /\ configured (configureLoader defaults (Some user) (Some loader) rt).1
     = configured rt ++ [(loader, defaults); (loader, Some (mergeStarMap defaults user))]
  /\ match starMap (Some user), starMap defaults with
     | Some userStarMap, Some defaultStarMap =>
         exists merged,
           mergeStarMap defaults user = withStarMap merged user
           /\ (forall key,
                 merged !! key
                 = match userStarMap !! key with
                   | Some v => Some v
                   | None => match Object_prototype key with
                             | Some _ => None
                             | None => defaultStarMap !! key
                             end
                   end)
           /\ ((forall key, is_Some (defaultStarMap !! key) -> Object_prototype key = None) ->
               merged = userStarMap ∪ defaultStarMap)
     | _, _ => mergeStarMap defaults user = user
     end.
Proof.
  split; [done|]. split.
  - cbn. by rewrite <- app_assoc.
  - rewrite mergeStarMap_cases.
    destruct (starMap (Some user)) as [userStarMap|]; [|done].
    destruct (starMap defaults) as [defaultStarMap|]; [|done].
    exists (fillStarMap defaultStarMap userStarMap). split; [done|].
    split; [apply fillStarMap_lookup | apply fillStarMap_union].
Qed.

(** Without user options the loader gets the defaults alone. *)
Lemma configureLoader_defaults_only defaults loader rt :
  configureLoader defaults None (Some loader) rt
  = (setConfig loader defaults rt, Return (loader, None)).
Proof. done. Qed.

(** The branch of lines 490-493. *)
Lemma obtainLoader_cached basePath loaders rt id file active :
  has_host_node = true ->
  truthy (loaders ≫= loaders_host_node) = Some id ->
  g_require (globals rt) = Some active ->
  has_nodeRequire active = true ->
  require_resolve id = Some file ->
  is_Some (cache rt !! file) ->
  obtainLoader basePath loaders rt = (rt, Return (Some active)).
Proof.
  intros Hnode Hid Hactive Hrequire Hfile Hcached.
  unfold obtainLoader. rewrite Hnode, Hid.
  unfold swapLoader_node. rewrite Hactive, Hrequire, Hfile.
  by rewrite bool_decide_true.
Qed.

(** Line 490 with a global [require] that has no [nodeRequire]. *)
Lemma obtainLoader_no_nodeRequire basePath loaders rt id active :
  has_host_node = true ->
  truthy (loaders ≫= loaders_host_node) = Some id ->
  g_require (globals rt) = Some active ->
  has_nodeRequire active = false ->
  obtainLoader basePath loaders rt = (rt, Throw TypeError).
Proof.
  intros Hnode Hid Hactive Hrequire.
  unfold obtainLoader. rewrite Hnode, Hid.
  unfold swapLoader_node. by rewrite Hactive, Hrequire.
Qed.

(** C5, as the code has it: on Node, with a loader module that is in the
    module cache and a global [require] that carries Node's [require], the
    swap resolves with the loader that is active; it leaves the global
    slots, the module cache, the list of modules run and the document as
    they were; and a second swap with the same arguments, the options being
    the ones the first left, gives the same loader and options and again
    leaves all of those as they were. With a global [require] that does not
    carry Node's [require] the swap rejects with a TypeError, whatever the
    module cache holds, and changes nothing. *)
Theorem C5_cached_loader_reused defaults basePath loaders loaderOptions rt id file active :
  has_host_node = true ->
  truthy (loaders ≫= loaders_host_node) = Some id ->
  g_require (globals rt) = Some active ->
  require_resolve id = Some file ->
  is_Some (cache rt !! file) ->
  if has_nodeRequire active then
  obtainLoader basePath loaders rt = (rt, Return (Some active))
  /\ exists rt1 options1,
       swapLoader defaults basePath loaders loaderOptions rt
       = (rt1, Return (active, options1))
       /\ globals rt1 = globals rt /\ cache rt1 = cache rt
       /\ executed rt1 = executed rt /\ scripts rt1 = scripts rt
       /\ exists rt2,
            swapLoader defaults basePath loaders options1 rt1
            = (rt2, Return (active, options1))
            /\ globals rt2 = globals rt /\ cache rt2 = cache rt
            /\ executed rt2 = executed rt /\ scripts rt2 = scripts rt
  else
    swapLoader defaults basePath loaders loaderOptions rt = (rt, Throw TypeError).
Proof.
  intros Hnode Hid Hactive Hfile Hcached.
  destruct (has_nodeRequire active) eqn:Hrequire.
  2: { unfold swapLoader.
       by rewrite (obtainLoader_no_nodeRequire basePath loaders rt id active). }
  pose proof (obtainLoader_cached basePath loaders rt id file active
                Hnode Hid Hactive Hrequire Hfile Hcached) as Hfirst.
  split; [done|].
  unfold swapLoader. rewrite Hfirst.
  destruct loaderOptions as [user|]; cbn [configureLoader].
  - eexists _, _. split; [done|]. repeat (split; [done|]).
    eexists. rewrite obtainLoader_cached with (id := id) (file := file) (active := active);
      try done.
    cbn [configureLoader]. rewrite mergeStarMap_idempotent. done.
  - eexists _, _. split; [done|]. repeat (split; [done|]).
    eexists. rewrite obtainLoader_cached with (id := id) (file := file) (active := active);
      try done.
Qed.

(** Each swap does configure the loader again: two more calls a swap. *)
Lemma swapLoader_cached_configures defaults basePath loaders user rt id file active :
  has_host_node = true ->
  truthy (loaders ≫= loaders_host_node) = Some id ->
  g_require (globals rt) = Some active ->
  has_nodeRequire active = true ->
  require_resolve id = Some file ->
  is_Some (cache rt !! file) ->
  configured (swapLoader defaults basePath loaders (Some user) rt).1
  = configured rt ++ [(active, defaults); (active, Some (mergeStarMap defaults user))].
Proof.
  intros Hnode Hid Hactive Hrequire Hfile Hcached. unfold swapLoader.
  rewrite obtainLoader_cached with (id := id) (file := file) (active := active) by done.
  cbn. by rewrite <- app_assoc.
Qed.

End WithHost.

Import Example.

(** C4 fails where the user's options have no wildcard aliases: the second
    configuration is then the user's options as they are, and the default
    aliases a and b are not in them. *)
Lemma C4_counterexample_no_user_wildcard :
  configured
    (@configureLoader exampleEngine (Some (starOptions aliases_a1_b2)) (Some noOptions)
       (Some dojoLoader) cachedRuntime).1
  = [(dojoLoader, Some (starOptions aliases_a1_b2)); (dojoLoader, Some noOptions)]
  /\ starMap (Some noOptions) = None
  /\ starMap (Some (starOptions aliases_a1_b2)) = Some aliases_a1_b2.
Proof. repeat split. Qed.

Lemma aliases_a1_b2_own key :
  is_Some (aliases_a1_b2 !! key) -> exampleObjectPrototype key = None.
Proof.
  unfold aliases_a1_b2. intros [v Hv].
  apply lookup_insert_Some in Hv as [[<- _]|[_ Hv]]; [done|].
  apply lookup_singleton_Some in Hv as [<- _]. done.
Qed.

(** The example of the specification: defaults a:1, b:2 and user a:3. *)
Lemma C4_defaults_then_merged_options_witness :
  @mergeStarMap exampleEngine (Some (starOptions aliases_a1_b2)) (starOptions aliases_a3)
  = starOptions aliases_a3_b2.
Proof.
  destruct (@C4_defaults_then_merged_options exampleEngine
              (Some (starOptions aliases_a1_b2)) (starOptions aliases_a3)
              dojoLoader cachedRuntime) as (_ & _ & merged & Hmerged & _ & Hunion).
  etrans; [exact Hmerged|].
  rewrite (Hunion aliases_a1_b2_own).
  vm_compute. reflexivity.
Defined.

Lemma C5_cached_loader_reused_witness :
  @obtainLoader nodeHost exampleUtil exampleModules "/home/project/" (Some nodeLoaders)
    cachedRuntime
  = (cachedRuntime, Return (Some dojoLoader))
  /\ exists rt1 options1,
       @swapLoader exampleEngine nodeHost exampleUtil exampleModules
         (Some (starOptions aliases_a1_b2)) "/home/project/" (Some nodeLoaders)
         (Some (starOptions aliases_a3)) cachedRuntime
       = (rt1, Return (dojoLoader, options1))
       /\ globals rt1 = globals cachedRuntime /\ cache rt1 = cache cachedRuntime
       /\ executed rt1 = executed cachedRuntime /\ scripts rt1 = scripts cachedRuntime
       /\ exists rt2,
            @swapLoader exampleEngine nodeHost exampleUtil exampleModules
              (Some (starOptions aliases_a1_b2)) "/home/project/" (Some nodeLoaders)
              options1 rt1
            = (rt2, Return (dojoLoader, options1))
            /\ globals rt2 = globals cachedRuntime /\ cache rt2 = cache cachedRuntime
            /\ executed rt2 = executed cachedRuntime /\ scripts rt2 = scripts cachedRuntime.
Proof.
  apply (@C5_cached_loader_reused exampleEngine nodeHost exampleUtil exampleModules
           (Some (starOptions aliases_a1_b2)) "/home/project/" (Some nodeLoaders)
           (Some (starOptions aliases_a3)) cachedRuntime
           "requirejs" "/home/project/node_modules/requirejs/bin/r.js" dojoLoader).
  - reflexivity.
  - reflexivity.
  - reflexivity.
  - reflexivity.
  - vm_compute. eauto.
Defined.

(** C5 fails once the loader that was swapped in does not carry Node's
    [require]: the first swap from the bootstrap loader runs the module of
    [requirejs], caches it and makes the loader it exports the global
    [require]; the same swap again, the module now being in the cache,
    rejects with a TypeError. *)
Lemma C5_counterexample_no_nodeRequire :
  @obtainLoader nodeHost exampleUtil exampleModules "/home/project/" (Some nodeLoaders)
    MoreExamples.bootRuntime
  = (MoreExamples.requirejsRuntime, Return (Some requirejsLoader))
  /\ cache MoreExamples.requirejsRuntime !! "/home/project/node_modules/requirejs/bin/r.js"
     = Some (ExportsFunction requirejsLoader)
  /\ has_nodeRequire requirejsLoader = false
  /\ @swapLoader exampleEngine nodeHost exampleUtil exampleModules
       (Some (starOptions aliases_a1_b2)) "/home/project/" (Some nodeLoaders)
       (Some (starOptions aliases_a3)) MoreExamples.requirejsRuntime
     = (MoreExamples.requirejsRuntime, Throw TypeError).
Proof. repeat split; vm_compute; reflexivity. Qed.

End SwapLoaderProps.

(** ** The error reporting bridge *)

Module BridgeProps.
Import PreExecutor.

Section WithHost.
Context `{Engine} `{Host} `{Util}.

(** One error sent, in a session whose id decodes. *)
Lemma sendErrorToConduit_posts error page encoded sessionId :
  exec_sessionId location_search = Some encoded ->
  decodeURIComponent encoded = Some sessionId ->
  sendErrorToConduit error page
  = ({| sequence := S (sequence page);
        requests := requests page ++ [conduitRequest (sequence page) sessionId error];
        body := body page; console := console page; handled := handled page |},
     Completed).
Proof. intros He Hd. unfold sendErrorToConduit. by rewrite He, Hd. Qed.

(** C6: without a session id in [location.search] nothing happens. With
    one, on a page that has sent nothing yet, the first error posts one
    request, a POST of JSON to the proxy root whose data is the serialised
    array of one serialised object, with sequence 0, the decoded session id
    and the payload of the fatal error; the next error posts a second
    request of the same shape with sequence 1. If the id does not decode,
    the call throws before anything is sent or counted. *)
Theorem C6_conduit_sequence error1 error2 page :
  let posted (n : nat) (sessionId : string) (error : ErrorObject) : Request :=
    {| req_url := toUrl "intern/";
       req_method := "POST";
       req_headers := [("Content-Type", "application/json")];
       req_data :=
         JSerialized (JArray [
           JSerialized (JObject [
             ("sequence", JNumber n);
             ("sessionId", JString sessionId);
             ("payload", JArray [
                JString "fatalError";
                JObject ([("name", JString (err_name error));
                          ("message", JString (err_message error))]
                         ++ match err_stack error with
                            | Some stack => [("stack", JString stack)]
                            | None => []
                            end
                         ++ [("sessionId", JString sessionId)])])])]) |} in
  match exec_sessionId location_search with
  | None => sendErrorToConduit error1 page = (page, Completed)
  | Some encoded =>
      match decodeURIComponent encoded with
      | None => sendErrorToConduit error1 page = (page, Threw URIError)
      | Some sessionId =>
          sequence page = 0 -> requests page = [] ->
          exists page1 page2,
            sendErrorToConduit error1 page = (page1, Completed)
            /\ requests page1 = [posted 0 sessionId error1]
            /\ sequence page1 = 1
            /\ sendErrorToConduit error2 page1 = (page2, Completed)
            /\ requests page2 = [posted 0 sessionId error1; posted 1 sessionId error2]
            /\ sequence page2 = 2
      end
  end.
Proof.
  intros posted.
  destruct (exec_sessionId location_search) as [encoded|] eqn:He.
  - destruct (decodeURIComponent encoded) as [sessionId|] eqn:Hd.
    + intros Hseq Hreq. eexists _, _.
      rewrite (sendErrorToConduit_posts error1 page encoded sessionId He Hd).
      split; [done|]. cbn. rewrite Hseq, Hreq. split; [done|]. split; [done|].
      rewrite (sendErrorToConduit_posts error2 _ encoded sessionId He Hd).
      cbn. done.
    + unfold sendErrorToConduit. by rewrite He, Hd.
  - unfold sendErrorToConduit. by rewrite He.
Qed.

Lemma sendErrorToConduit_handled error page :
  handled (sendErrorToConduit error page).1 = handled page.
Proof.
  unfold sendErrorToConduit.
  destruct (exec_sessionId location_search) as [encoded|]; [|done].
  by destruct (decodeURIComponent encoded).
Qed.

(** A call of [_handleError] is one more entry in [handled]. *)
Lemma _handleError_handled error page :
  handled (_handleError error page).1 = handled page ++ [error].
Proof.
  unfold _handleError.
  destruct has_host_browser.
  - destruct (String.eqb _ "/__intern/").
    + pose proof (sendErrorToConduit_handled error (noteHandled error page)) as Hsent.
      destruct (sendErrorToConduit error (noteHandled error page)) as [page' []];
        cbn in *; by rewrite Hsent.
    + done.
  - by destruct console_defined.
Qed.

(** C1, as the code has it: an error whose marker is set goes on without a
    call of the handler and without any change; an error whose marker is
    unset gets one call of [_handleError], and when that call returns the
    promise rejects with the same error, its marker unset as before, so that
    the same error passing again gets a second call. *)
Theorem C1_failure_path error page :
  if reported error then run_catch error page = (page, RejectedWith error)
  else
    handled (run_catch error page).1 = handled page ++ [error]
    /\ (run_catch error page).2
       = match (_handleError error page).2 with
         | Completed => RejectedWith error
         | Threw e => RejectedByHandler e
         | Exited code => ProcessExit code
         end
    /\ ((run_catch error page).2 = RejectedWith error ->
        handled (run_catch error (run_catch error page).1).1
        = handled page ++ [error; error]).
Proof.
  unfold run_catch. destruct (reported error) eqn:Hreported; [done|].
  pose proof (_handleError_handled error page) as Hfirst.
  destruct (_handleError error page) as [page1 out] eqn:Hrun; cbn [fst snd] in *.
  assert (handled (page1, match out with
                          | Completed => RejectedWith error
                          | Threw e => RejectedByHandler e
                          | Exited code => ProcessExit code
                          end).1 = handled page ++ [error]) as Hone by done.
  destruct out; cbn [fst snd]; (split; [done|]); (split; [done|]); try done.
  intros _. pose proof (_handleError_handled error page1) as Hsecond.
  destruct (_handleError error page1) as [page2 out2]; cbn [fst snd] in *.
  rewrite Hfirst, <- app_assoc in Hsecond. by destruct out2.
Qed.

Lemma removeLast_absent f listeners :
  f ∉ listeners -> removeLast f listeners = listeners.
Proof.
  induction listeners as [|g rest IH]; [done|].
  intros Hnot. apply not_elem_of_cons in Hnot as [Hne Hrest]. cbn.
  rewrite bool_decide_false by done. by rewrite bool_decide_false.
Qed.

Lemma Handler_not_wrapper h listeners :
  forallb isWrapper listeners = true -> Handler h ∉ listeners.
Proof.
  intros Hall Hin. rewrite forallb_forall in Hall.
  apply list_elem_of_In, Hall in Hin. done.
Qed.

(** While every listener is a closure of lines 330-332, removing a handle
    takes no listener away: what [remove] asks [process] to take away is the
    handler, which [process] never had. *)
Lemma remove_keeps_listeners handle b :
  forallb isWrapper (uncaught_listeners b) = true ->
  uncaught_listeners (remove handle b) = uncaught_listeners b.
Proof.
  intros Hall. unfold remove.
  destruct (removables b !! handle) as [[advice|h []]|]; try done.
  cbn. apply removeLast_absent. by apply Handler_not_wrapper.
Qed.

Lemma dropEarlyErrorHandle_keeps_listeners b :
  forallb isWrapper (uncaught_listeners b) = true ->
  uncaught_listeners (dropEarlyErrorHandle b) = uncaught_listeners b.
Proof.
  intros Hall. unfold dropEarlyErrorHandle.
  destruct (_earlyErrorHandle b) as [handle|]; [|done].
  cbn. by apply remove_keeps_listeners.
Qed.

(** On Node every registration adds a listener and none goes away. *)
Lemma registerErrorHandler_node_adds handler b :
  has_host_browser = false -> has_host_node = true ->
  forallb isWrapper (uncaught_listeners b) = true ->
  exists id,
    uncaught_listeners (registerErrorHandler handler b).2
    = uncaught_listeners b ++ [Wrapper id handler].
Proof.
  intros Hbrowser Hnode Hall. unfold registerErrorHandler.
  rewrite Hbrowser, Hnode. cbn.
  rewrite dropEarlyErrorHandle_keeps_listeners by done. eauto.
Qed.

(** C2, at the input where the code departs from it: on Node, after [run]
    has registered its handler and kept the handle, registering another
    handler removes that handle, and both handlers are active afterwards. *)
Theorem C2_headless_listener_survives early later :
  has_host_browser = false -> has_host_node = true ->
  activeHandlers (registerErrorHandler later (run_register early emptyBridge)).2
  = [early; later].
Proof.
  intros Hbrowser Hnode.
  unfold activeHandlers, run_register, registerErrorHandler.
  rewrite Hbrowser, Hnode. cbn.
  unfold dropEarlyErrorHandle, remove. cbn.
  rewrite lookup_insert_eq. cbn.
  rewrite (bool_decide_false (Handler early ∈ [])) by apply not_elem_of_nil.
  by rewrite bool_decide_false.
Qed.

(** In a browser the handle of [dojo/aspect] does take the advice out: one
    handler is active after the same two registrations. *)
Lemma browser_reregistration_replaces early later :
  has_host_browser = true ->
  activeHandlers (registerErrorHandler later (run_register early emptyBridge)).2
  = [later].
Proof.
  intros Hbrowser.
  unfold activeHandlers, run_register, registerErrorHandler.
  rewrite Hbrowser. cbn.
  unfold dropEarlyErrorHandle, remove. cbn.
  rewrite lookup_insert_eq. cbn.
  by destruct (decide (0 ≠ 0)).
Qed.

End WithHost.

Import Example.

Example conduit_two_errors :
  let first := @sendErrorToConduit exampleEngine browserHost fatal freshPage in
  let second := @sendErrorToConduit exampleEngine browserHost fatal first.1 in
  requests second.1
  = [@conduitRequest browserHost 0 "abc123" fatal;
     @conduitRequest browserHost 1 "abc123" fatal]
  /\ @conduitRequest browserHost 0 "abc123" fatal
     = {| req_url := "/__intern/intern/";
          req_method := "POST";
          req_headers := [("Content-Type", "application/json")];
          req_data :=
            JSerialized (JArray [
              JSerialized (JObject [
                ("sequence", JNumber 0);
                ("sessionId", JString "abc123");
                ("payload", JArray [
                   JString "fatalError";
                   JObject [("name", JString "Error");
                            ("message", JString "Failed to load AMD loader");
                            ("sessionId", JString "abc123")]])])]) |}.
Proof. split; vm_compute; reflexivity. Qed.

Lemma C6_conduit_sequence_witness :
  exists page1 page2,
    @sendErrorToConduit exampleEngine browserHost fatal freshPage = (page1, Completed)
    /\ requests page1
       = [{| req_url := "/__intern/intern/";
             req_method := "POST";
             req_headers := [("Content-Type", "application/json")];
             req_data :=
               JSerialized (JArray [
                 JSerialized (JObject [
                   ("sequence", JNumber 0);
                   ("sessionId", JString "abc123");
                   ("payload", JArray [
                      JString "fatalError";
                      JObject [("name", JString "Error");
                               ("message", JString "Failed to load AMD loader");
                               ("sessionId", JString "abc123")]])])]) |}]
    /\ sequence page1 = 1
    /\ @sendErrorToConduit exampleEngine browserHost fatal page1 = (page2, Completed)
    /\ length (requests page2) = 2
    /\ req_data <$> last (requests page2)
       = Some (JSerialized (JArray [
                 JSerialized (JObject [
                   ("sequence", JNumber 1);
                   ("sessionId", JString "abc123");
                   ("payload", JArray [
                      JString "fatalError";
                      JObject [("name", JString "Error");
                               ("message", JString "Failed to load AMD loader");
                               ("sessionId", JString "abc123")]])])]))
    /\ sequence page2 = 2.
Proof.
  destruct (@C6_conduit_sequence exampleEngine browserHost fatal fatal freshPage
              eq_refl eq_refl)
    as (page1 & page2 & Hfirst & Hposted1 & Hsequence1 & Hsecond & Hposted2 & Hsequence2).
  exists page1, page2.
  split; [exact Hfirst|]. split; [exact Hposted1|]. split; [exact Hsequence1|].
  split; [exact Hsecond|]. rewrite Hposted2.
  split; [reflexivity|]. split; [reflexivity|]. exact Hsequence2.
Defined.

Example conduit_no_session :
  @sendErrorToConduit exampleEngine localBrowserHost fatal freshPage
  = (freshPage, Completed).
Proof. reflexivity. Qed.

(** C1 fails on an error whose marker is unset that passes twice: the
    first pass rejects with the error, its marker unset as before, and the
    second pass calls the handler again. *)
Lemma C1_counterexample_handler_fires_twice :
  reported fatal = false
  /\ (@run_catch exampleEngine localBrowserHost exampleUtil fatal freshPage).2
     = RejectedWith fatal
  /\ handled
       (@run_catch exampleEngine localBrowserHost exampleUtil fatal
          (@run_catch exampleEngine localBrowserHost exampleUtil fatal freshPage).1).1
     = [fatal; fatal].
Proof. repeat split. Qed.

Lemma browser_reregistration_replaces_witness :
  @activeHandlers browserHost
    (@registerErrorHandler browserHost 1 (@run_register browserHost 0 emptyBridge)).2
  = [1].
Proof. apply (@browser_reregistration_replaces browserHost 0 1); reflexivity. Defined.

Lemma registerErrorHandler_node_adds_witness :
  exists id,
    uncaught_listeners
      (@registerErrorHandler nodeHost 1 (@run_register nodeHost 0 emptyBridge)).2
    = uncaught_listeners (@run_register nodeHost 0 emptyBridge) ++ [Wrapper id 1].
Proof.
  apply (@registerErrorHandler_node_adds nodeHost 1 (@run_register nodeHost 0 emptyBridge));
    reflexivity.
Defined.

Lemma C2_headless_listener_survives_witness :
  @activeHandlers nodeHost
    (@registerErrorHandler nodeHost 1 (@run_register nodeHost 0 emptyBridge)).2
  = [0; 1].
Proof. apply (@C2_headless_listener_survives nodeHost 0 1); reflexivity. Defined.

End BridgeProps.

(** ** More on parseArgs: errors, dashes, escapes *)

Module ParseArgsMore.
Import ParseArgs TextProps.

Lemma split_nonempty sep s : exists h t, split sep s = h :: t.
Proof.
  induction s as [|c s (h & t & IH)]; cbn [split]; [eauto|].
  destruct (Ascii.eqb c sep); [eauto|]. rewrite IH. eauto.
Qed.

(** A string without the separator is one part. *)
Lemma split_whole sep s : without sep s = true -> split sep s = [s].
Proof.
  unfold without. induction s as [|c s IH]; [done|].
  cbn [forallb_string split]. rewrite andb_true_iff, negb_true_iff.
  intros [Hc Hs]. by rewrite Hc, IH.
Qed.

(** The first part ends at the first separator. *)
Lemma split_first sep k rest :
  without sep k = true ->
  split sep (k +:+ String sep rest) = k :: split sep rest.
Proof.
  unfold without. induction k as [|c k IH]; string_append; cbn [forallb_string split].
  - intros _. by rewrite Ascii.eqb_refl.
  - rewrite andb_true_iff, negb_true_iff. intros [Hc Hk]. by rewrite Hc, IH.
Qed.

Lemma strip_dashes_other s :
  charAt0 s <> Some "-"%char -> strip_dashes s = s.
Proof.
  destruct s as [|c s]; [done|]. cbn. intros Hc.
  destruct c as [[] [] [] [] [] [] [] []]; try done.
Qed.

Lemma split_head_no_dash a h t :
  charAt0 a <> Some "-"%char -> split "=" a = h :: t -> charAt0 h <> Some "-"%char.
Proof.
  destruct a as [|c a]; cbn [split].
  - by intros _ [= <- <-].
  - destruct (Ascii.eqb c "=") eqn:Hc.
    + by intros _ [= <- <-].
    + destruct (split_nonempty "=" a) as (h' & t' & ->). by intros Hd [= <- <-].
Qed.

Section WithEngine.
Context `{Engine}.

(** Two hyphens, one hyphen or none before a key give the same entry, as
    long as the key itself does not begin with a hyphen. *)
Theorem parseToken_dashes decode arg :
  charAt0 arg <> Some "-"%char ->
  parseToken decode ("--" +:+ arg) = parseToken decode arg
  /\ parseToken decode ("-" +:+ arg) = parseToken decode arg.
Proof.
  intros Hdash. destruct (split_nonempty "=" arg) as (h & t & Hsplit).
  pose proof (split_head_no_dash arg h t Hdash Hsplit) as Hh.
  unfold parseToken. string_append. cbn [split].
  replace (Ascii.eqb "-" "=") with false by reflexivity.
  rewrite Hsplit. cbn [hd].
  rewrite (strip_dashes_other h Hh).
  split.
  - replace (strip_dashes (String "-" (String "-" h))) with h by reflexivity. done.
  - replace (strip_dashes (String "-" h)) with h; [done|].
    destruct h as [|c h]; [done|]. cbn.
    destruct c as [[] [] [] [] [] [] [] []]; try done.
Qed.

(** Only the text between the first and the second equals sign becomes the
    value: what follows a second equals sign is dropped. *)
Theorem parseToken_second_equals decode key value rest :
  without "=" key = true -> without "=" value = true ->
  parseToken decode (key +:+ "=" +:+ value +:+ "=" +:+ rest)
  = parseToken decode (key +:+ "=" +:+ value).
Proof.
  intros Hkey Hvalue. unfold parseToken. string_append.
  rewrite !split_first by done. rewrite (split_whole "=" value) by done.
  destruct (split_nonempty "=" rest) as (h & t & ->). done.
Qed.

(** A value that begins with a brace can be given as a string by putting a
    backslash before it: the backslash is dropped and nothing is parsed as
    JSON. *)
Theorem parseToken_escaped_brace key text :
  without "=" key = true -> without "=" text = true ->
  charAt0 text = Some "{"%char ->
  parseToken (fun str => Return str) (key +:+ "=\" +:+ text)
  = Return (strip_dashes key, VString text).
Proof.
  intros Hkey Htext Hbrace. unfold parseToken. string_append.
  rewrite split_first by done.
  destruct text as [|c text]; [done|]. injection Hbrace as ->.
  rewrite (split_whole "=" (String "\" (String "{" text))) by exact Htext.
  reflexivity.
Qed.

Lemma parseToken_Throw decode arg e :
  parseToken decode arg = Throw e ->
  exists part1,
    valuePart arg = Some part1
    /\ (decode part1 = Throw e
        \/ exists decoded,
             decode part1 = Return decoded
             /\ charAt0 decoded = Some "{"%char
             /\ JSON_parses decoded = false /\ e = SyntaxError).
Proof.
  unfold parseToken, valuePart.
  destruct (split "=" arg) as [|p0 [|p1 ps]]; try done.
  intros Hp. exists p1. split; [done|].
  destruct (decode p1) as [decoded|e'] eqn:Hd; [|left; by simplify_eq/=].
  right. exists decoded. split; [done|].
  cbn [mbind completion_bind JS.bind] in Hp. unfold interpret in Hp.
  case_bool_decide; [|by case_match].
  destruct (JSON_parses decoded); [done|]. by simplify_eq/=.
Qed.

Lemma parseInto_Throw decode rawArgs args e :
  parseInto decode rawArgs args = Throw e ->
  exists arg, arg ∈ rawArgs /\ parseToken decode arg = Throw e.
Proof.
  revert args. induction rawArgs as [|arg rest IH]; intros args; [done|].
  cbn [parseInto]. destruct (parseToken decode arg) as [kv|e'] eqn:Ht.
  - cbn [mbind completion_bind JS.bind]. intros Hr.
    destruct (IH _ Hr) as (arg' & Hin & Hthrow).
    exists arg'. split; [apply elem_of_cons; by right | done].
  - intros [= ->]. exists arg. split; [apply elem_of_cons; by left | done].
Qed.

(** What can go wrong in the parser: the command line fails only on a value
    that begins with a brace and is not JSON, with a SyntaxError; the query
    string fails only with the URIError of the decoder or that SyntaxError;
    and a command line without such a value always parses. *)
Theorem parseArgs_errors :
  (forall rawArgs e,
     fromCommandLine rawArgs = Throw e ->
     e = SyntaxError
     /\ exists arg part1,
          arg ∈ rawArgs /\ valuePart arg = Some part1
          /\ charAt0 part1 = Some "{"%char /\ JSON_parses part1 = false)
  /\ (forall query e,
        fromQueryString query = Throw e -> e = URIError \/ e = SyntaxError)
  /\ (forall rawArgs,
        (forall arg part1, arg ∈ rawArgs -> valuePart arg = Some part1 ->
                           charAt0 part1 <> Some "{"%char) ->
        exists args, fromCommandLine rawArgs = Return args).
Proof.
  assert (forall rawArgs e,
     fromCommandLine rawArgs = Throw e ->
     e = SyntaxError
     /\ exists arg part1,
          arg ∈ rawArgs /\ valuePart arg = Some part1
          /\ charAt0 part1 = Some "{"%char /\ JSON_parses part1 = false) as Hcommand.
  { intros rawArgs e Hthrow.
    apply parseInto_Throw in Hthrow as (arg & Hin & Hthrow).
    apply parseToken_Throw in Hthrow as (part1 & Hpart & [Hd | (d & Hd & Hb & Hj & ->)]);
      [done|].
    injection Hd as <-. eauto 10. }
  split; [exact Hcommand|]. split.
  - intros query e Hthrow.
    apply parseInto_Throw in Hthrow as (arg & _ & Hthrow).
    apply parseToken_Throw in Hthrow as (part1 & _ & [Hd | (d & _ & _ & _ & ->)]);
      [|by right].
    left. destruct (decodeURIComponent part1); by simplify_eq.
  - intros rawArgs Hplain.
    destruct (fromCommandLine rawArgs) as [args|e] eqn:Hr; [eauto|].
    apply Hcommand in Hr as (_ & arg & part1 & Hin & Hpart & Hbrace & _).
    by destruct (Hplain arg part1).
Qed.

End WithEngine.

Import Example.

Lemma parseToken_dashes_witness :
  parseToken (H := exampleEngine) (fun str => Return str) ("--" +:+ "suites=unit")
  = parseToken (H := exampleEngine) (fun str => Return str) "suites=unit"
  /\ parseToken (H := exampleEngine) (fun str => Return str) ("-" +:+ "suites=unit")
     = parseToken (H := exampleEngine) (fun str => Return str) "suites=unit".
Proof. apply (@parseToken_dashes exampleEngine). discriminate. Defined.

Lemma parseToken_second_equals_witness :
  parseToken (H := exampleEngine) (fun str => Return str)
    ("--grep" +:+ "=" +:+ "a" +:+ "=" +:+ "b")
  = parseToken (H := exampleEngine) (fun str => Return str) ("--grep" +:+ "=" +:+ "a").
Proof. apply (@parseToken_second_equals exampleEngine); reflexivity. Defined.

Lemma parseToken_escaped_brace_witness :
  parseToken (H := exampleEngine) (fun str => Return str) ("--grep" +:+ "=\" +:+ "{2}")
  = Return (strip_dashes "--grep", VString "{2}").
Proof. apply (@parseToken_escaped_brace exampleEngine); reflexivity. Defined.

End ParseArgsMore.

(** ** More on getArguments: the list-valued names *)

Module GetArgumentsMore.
Import ParseArgs PreExecutor GetArgumentsProps.

Section WithHost.
Context `{Engine} `{Host}.

Lemma normalizeList_same kwArgs name :
  get (normalizeList kwArgs name) name
  = match get kwArgs name with
    | Some v =>
        Some (if isArray v then v
              else match v with
                   | VString EmptyString => VArray []
                   | _ => VArray [v]
                   end)
    | None => None
    end.
Proof.
  unfold normalizeList. destruct (get kwArgs name) as [v|] eqn:Hv; [|done].
  destruct (isArray v); [done|]. apply get_insert_eq.
Qed.

Lemma normalizeExcludeInstrumentation_other kwArgs result key :
  normalizeExcludeInstrumentation kwArgs = Return result ->
  key <> "excludeInstrumentation" ->
  get result key = get kwArgs key.
Proof.
  unfold normalizeExcludeInstrumentation. intros Hr Hkey.
  destruct (get kwArgs "excludeInstrumentation") as [[b|n|s|r|items|text|name]|];
    try (by injection Hr as <-).
  destruct (String.eqb s "true").
  - injection Hr as <-. by apply get_insert_ne.
  - destruct (RegExp_accepts s EmptyString); [|done].
    injection Hr as <-. by apply get_insert_ne.
Qed.

(** In the arguments that [getArguments] returns, each of environments,
    functionalSuites, reporters and suites is an array whenever it is
    there: an array is kept, the empty string becomes the empty array, and
    any other single value becomes the array of that value. *)
Theorem getArguments_lists (parsed result : Args) name :
  rawArguments = Return parsed ->
  getArguments = Return result ->
  name ∈ listNames ->
  get result name
  = match get parsed name with
    | Some v =>
        Some (if isArray v then v
              else match v with
                   | VString EmptyString => VArray []
                   | _ => VArray [v]
                   end)
    | None => None
    end
  /\ forall v, get result name = Some v -> isArray v = true.
Proof.
  unfold getArguments. intros -> Hr Hname.
  cbn [mbind completion_bind JS.bind] in Hr.
  assert (get result name
          = match get parsed name with
            | Some v =>
                Some (if isArray v then v
                      else match v with
                           | VString EmptyString => VArray []
                           | _ => VArray [v]
                           end)
            | None => None
            end) as Hget.
  { rewrite (normalizeExcludeInstrumentation_other _ _ name Hr).
    - unfold listNames in *. cbn [foldl].
      repeat (apply elem_of_cons in Hname as [->|Hname]);
        [ | | | | by apply elem_of_nil in Hname ];
        rewrite ?normalizeList_other by done;
        rewrite normalizeList_same;
        by rewrite ?normalizeList_other by done.
    - unfold listNames in Hname. intros ->.
      repeat (apply elem_of_cons in Hname as [?|Hname]); try done.
      by apply elem_of_nil in Hname. }
  split; [exact Hget|].
  rewrite Hget. intros v Hv.
  destruct (get parsed name) as [w|]; [|done]. injection Hv as <-.
  destruct (isArray w) eqn:Hw; [done|]. by destruct w as [| |[|]| | | |].
Qed.

(** Every other key, [excludeInstrumentation] apart, is as the parser left
    it. *)
Theorem getArguments_other_keys (parsed result : Args) key :
  rawArguments = Return parsed ->
  getArguments = Return result ->
  key ∉ listNames ->
  key <> "excludeInstrumentation" ->
  get result key = get parsed key.
Proof.
  unfold getArguments. intros -> Hr Hkey Hexclude.
  cbn [mbind completion_bind JS.bind] in Hr.
  rewrite (normalizeExcludeInstrumentation_other _ _ key Hr Hexclude).
  unfold listNames in *. cbn [foldl].
  rewrite !normalizeList_other; [done | | | | ];
    intros <-; apply Hkey; repeat constructor.
Qed.

End WithHost.

Import Example.

Lemma getArguments_lists_witness :
  get (H := exampleEngine)
    (<["suites" := VArray [VString "unit"]]>
       (<["excludeInstrumentation" := VRegExp {| source := "tests"; flags := EmptyString |}]>
          {["config" := VString "tests/intern"]}))
    "suites"
  = Some (VArray [VString "unit"]).
Proof.
  etrans.
  - apply (@getArguments_lists exampleEngine nodeHost
             (<["suites" := VString "unit"]>
                (<["excludeInstrumentation" := VString "tests"]>
                   {["config" := VString "tests/intern"]}))).
    + vm_compute. reflexivity.
    + vm_compute. reflexivity.
    + unfold listNames. repeat constructor.
  - vm_compute. reflexivity.
Defined.

Lemma getArguments_other_keys_witness :
  get (H := exampleEngine)
    (<["suites" := VArray [VString "unit"]]>
       (<["excludeInstrumentation" := VRegExp {| source := "tests"; flags := EmptyString |}]>
          {["config" := VString "tests/intern"]}))
    "config"
  = Some (VString "tests/intern").
Proof.
  etrans.
  - apply (@getArguments_other_keys exampleEngine nodeHost
             (<["suites" := VString "unit"]>
                (<["excludeInstrumentation" := VString "tests"]>
                   {["config" := VString "tests/intern"]}))).
    + vm_compute. reflexivity.
    + vm_compute. reflexivity.
    + unfold listNames. intros Hin.
      repeat (apply elem_of_cons in Hin as [?|Hin]); try done.
      by apply elem_of_nil in Hin.
    + done.
  - vm_compute. reflexivity.
Defined.

End GetArgumentsMore.

(** ** More on the error reporting bridge *)

Module BridgeMore.
Import PreExecutor TextProps.

Lemma forallb_string_app p s t :
  forallb_string p (s +:+ t) = forallb_string p s && forallb_string p t.
Proof.
  induction s as [|c s IH]; string_append; [done|].
  cbn [forallb_string]. by rewrite IH, andb_assoc.
Qed.

Lemma replace_all_clears c replacement s :
  without c replacement = true -> without c (replace_all c replacement s) = true.
Proof.
  unfold without. intros Hr. induction s as [|a s IH]; [done|].
  cbn [replace_all]. rewrite forallb_string_app, IH, andb_true_r.
  destruct (Ascii.eqb a c) eqn:Ha; [done|]. cbn. by rewrite Ha.
Qed.

Lemma replace_all_absent c replacement s :
  without c s = true -> replace_all c replacement s = s.
Proof.
  unfold without. induction s as [|a s IH]; [done|].
  cbn [forallb_string replace_all]. rewrite andb_true_iff, negb_true_iff.
  intros [Ha Hs]. rewrite Ha, IH by done. by string_append.
Qed.

(** The two replacements of line 279 leave no opening angle bracket, and
    leave a text with neither an ampersand nor an opening angle bracket as
    it is. *)
Lemma escape_html_safe message :
  without "<" (escape_html message) = true
  /\ (without "&" message = true -> without "<" message = true ->
      escape_html message = message).
Proof.
  unfold escape_html. split.
  - by apply replace_all_clears.
  - intros Hamp Hlt. rewrite (replace_all_absent "&") by done.
    by apply replace_all_absent.
Qed.

Lemma replace_all_app c replacement s t :
  replace_all c replacement (s +:+ t)
  = replace_all c replacement s +:+ replace_all c replacement t.
Proof.
  induction s as [|a s IH]; string_append; [done|].
  cbn [replace_all]. by rewrite IH, string_app_assoc.
Qed.

(** The two replacements in a row are one pass over the characters: no
    replacement is replaced again. *)
Lemma escape_html_by_character message :
  escape_html message
  = foldr (fun c rest =>
             (if Ascii.eqb c "&" then "&amp;"
              else if Ascii.eqb c "<" then "&lt;"
              else String c EmptyString) +:+ rest)
          EmptyString (list_ascii_of_string message).
Proof.
  unfold escape_html. induction message as [|c message IH]; [done|].
  cbn [replace_all list_ascii_of_string foldr]. rewrite replace_all_app, IH.
  f_equal. destruct (Ascii.eqb c "&") eqn:Hamp; [done|].
  cbn [replace_all]. by destruct (Ascii.eqb c "<").
Qed.

Section WithHost.
Context `{Engine} `{Host} `{Util}.

(** In a browser, when [_handleError] returns, the page has one more node,
    red and sans-serif, whose HTML is the heading, the opening pre tag,
    the message of the error and the closing pre tag, where the message
    has each ampersand and each opening angle bracket replaced by its
    entity, once; so no opening angle bracket of the message reaches the
    page. When the report to the conduit throws, no node is added. *)
Theorem _handleError_inserts_escaped_message error page :
  has_host_browser = true ->
  match (_handleError error page).2 with
  | Completed =>
      exists text,
        body (_handleError error page).1
        = body page
          ++ [{| cssText := "color: red; font-family: sans-serif;";
                 innerHTML :=
                   "<h1>Fatal error during pre-execution stage</h1><pre style="
                   +:+ dquote +:+ "padding: 1em; background-color: #f0f0f0;"
                   +:+ dquote +:+ ">" +:+ text +:+ "</pre>" |}]
        /\ text
           = foldr (fun c rest =>
                      (if Ascii.eqb c "&" then "&amp;"
                       else if Ascii.eqb c "<" then "&lt;"
                       else String c EmptyString) +:+ rest)
                   EmptyString (list_ascii_of_string (getErrorMessage error))
        /\ without "<" text = true
        /\ (without "&" (getErrorMessage error) = true ->
            without "<" (getErrorMessage error) = true ->
            text = getErrorMessage error)
  | _ => body (_handleError error page).1 = body page
  end.
Proof.
  intros Hbrowser. unfold _handleError. rewrite Hbrowser.
  assert (forall page0 : Page,
            exists text,
              body page0 ++ [errorNode error]
              = body page0
                ++ [{| cssText := "color: red; font-family: sans-serif;";
                       innerHTML :=
                         "<h1>Fatal error during pre-execution stage</h1><pre style="
                         +:+ dquote +:+ "padding: 1em; background-color: #f0f0f0;"
                         +:+ dquote +:+ ">" +:+ text +:+ "</pre>" |}]
              /\ text
                 = foldr (fun c rest =>
                            (if Ascii.eqb c "&" then "&amp;"
                             else if Ascii.eqb c "<" then "&lt;"
                             else String c EmptyString) +:+ rest)
                         EmptyString (list_ascii_of_string (getErrorMessage error))
              /\ without "<" text = true
              /\ (without "&" (getErrorMessage error) = true ->
                  without "<" (getErrorMessage error) = true ->
                  text = getErrorMessage error)) as Hnode.
  { intros page0. exists (escape_html (getErrorMessage error)).
    split; [done|]. split; [apply escape_html_by_character|].
    apply escape_html_safe. }
  destruct (String.eqb _ "/__intern/").
  - unfold sendErrorToConduit.
    destruct (exec_sessionId location_search) as [encoded|]; [|apply (Hnode page)].
    destruct (decodeURIComponent encoded); [apply (Hnode page) | done].
  - apply (Hnode page).
Qed.

Lemma sendErrorToConduit_never_exits error page code :
  (sendErrorToConduit error page).2 <> Exited code.
Proof.
  unfold sendErrorToConduit.
  destruct (exec_sessionId location_search) as [encoded|]; [|done].
  by destruct (decodeURIComponent encoded).
Qed.

(** The failure path of [run] ends the process in one case only: an error
    whose marker is unset, on a host that is not a browser, has a console
    and is Node; the status is then 1. *)
Theorem run_catch_exits_iff error page code :
  (run_catch error page).2 = ProcessExit code
  <-> reported error = false /\ has_host_browser = false
      /\ console_defined = true /\ has_host_node = true /\ code = 1.
Proof.
  unfold run_catch, _handleError.
  destruct (reported error); [split; [done | by intros (? & _)]|].
  destruct has_host_browser.
  - split; [|by intros (_ & ? & _)].
    destruct (String.eqb _ "/__intern/").
    + pose proof (sendErrorToConduit_never_exits error (noteHandled error page)) as Hne.
      destruct (sendErrorToConduit error (noteHandled error page)) as [page' [| |c]];
        cbn in *; try done.
      by destruct (Hne c).
    + done.
  - destruct console_defined; [|split; [done | by intros (_ & _ & ? & _)]].
    destruct has_host_node; cbn.
    + split; [by intros [= <-] | by intros (_ & _ & _ & _ & ->)].
    + split; [done | by intros (_ & _ & _ & ? & _)].
Qed.

(** Nothing is posted, and the sequence counter stays, unless the host is
    a browser, the page lies under the proxy's path and the query names a
    session. *)
Theorem _handleError_posts_only_in_session error page :
  has_host_browser = false
  \/ String.eqb (slice_last 10 (replace_last_segment location_pathname)) "/__intern/" = false
  \/ exec_sessionId location_search = None ->
  requests (_handleError error page).1 = requests page
  /\ sequence (_handleError error page).1 = sequence page.
Proof.
  unfold _handleError. intros Hwhy.
  destruct has_host_browser.
  - destruct (String.eqb _ "/__intern/").
    + destruct Hwhy as [?|[?|Hnone]]; try done.
      unfold sendErrorToConduit. by rewrite Hnone.
    + done.
  - by destruct console_defined.
Qed.

(** Every error sent in a session carries the number of the errors sent
    before it: after any number of errors, the requests added are numbered
    from the counter on, in order, and the counter has advanced by their
    number. *)
Theorem sendErrors_numbered errors page encoded sessionId :
  exec_sessionId location_search = Some encoded ->
  decodeURIComponent encoded = Some sessionId ->
  exists page',
    sendErrors errors page = (page', Completed)
    /\ requests page'
       = requests page
         ++ imap (fun i error => conduitRequest (sequence page + i) sessionId error) errors
    /\ sequence page' = sequence page + length errors.
Proof.
  intros He Hd. revert page. induction errors as [|error errors IH]; intros page.
  - exists page. cbn. by rewrite app_nil_r, Nat.add_0_r.
  - cbn [sendErrors].
    rewrite (BridgeProps.sendErrorToConduit_posts error page encoded sessionId He Hd).
    destruct (IH {| sequence := S (sequence page);
                    requests := requests page
                                ++ [conduitRequest (sequence page) sessionId error];
                    body := body page; console := console page;
                    handled := handled page |}) as (page' & -> & Hreq & Hseq).
    exists page'. split; [done|]. cbn in Hreq, Hseq. split.
    + rewrite Hreq, <- app_assoc. cbn. rewrite Nat.add_0_r. do 2 f_equal.
      apply imap_ext. intros i e _. cbn. f_equal. lia.
    + rewrite Hseq. cbn. lia.
Qed.

(** A handle removes once: removing it again changes nothing. *)
Theorem remove_twice handle b :
  remove handle (remove handle b) = remove handle b.
Proof.
  unfold remove at 2 3.
  destruct (removables b !! handle) as [[advice|h [|]]|] eqn:Hhandle.
  - unfold remove. cbn. rewrite Hhandle. f_equal.
    induction (onerror_advice b) as [|a l IH]; [done|].
    destruct (decide (a.1 ≠ advice)) as [Ha|Ha].
    + rewrite !filter_cons_True by done. by rewrite IH.
    + by rewrite filter_cons_False.
  - unfold remove. by rewrite Hhandle.
  - unfold remove, removeListener. cbn. by rewrite lookup_insert_eq.
  - unfold remove. by rewrite Hhandle.
Qed.

End WithHost.

Import Example.

Lemma _handleError_inserts_escaped_message_witness :
  exists text,
    body (@_handleError exampleEngine localBrowserHost exampleUtil
            MoreExamples.markupError freshPage).1
    = [{| cssText := "color: red; font-family: sans-serif;";
          innerHTML :=
            "<h1>Fatal error during pre-execution stage</h1><pre style="
            +:+ dquote +:+ "padding: 1em; background-color: #f0f0f0;"
            +:+ dquote +:+ ">" +:+ text +:+ "</pre>" |}]
    /\ text = "Error: a &lt; b &amp;&amp; c".
Proof.
  destruct (@_handleError_inserts_escaped_message exampleEngine localBrowserHost
              exampleUtil MoreExamples.markupError freshPage eq_refl)
    as (text & Hbody & Htext & _).
  exists text. split; [exact Hbody | exact Htext].
Defined.

Lemma _handleError_posts_only_in_session_witness :
  requests (@_handleError exampleEngine nodeHost exampleUtil fatal freshPage).1
  = requests freshPage
  /\ sequence (@_handleError exampleEngine nodeHost exampleUtil fatal freshPage).1
     = sequence freshPage.
Proof.
  apply (@_handleError_posts_only_in_session exampleEngine nodeHost exampleUtil).
  left. reflexivity.
Defined.

Lemma sendErrors_numbered_witness :
  exists page',
    @sendErrors exampleEngine browserHost [fatal; fatal; fatal] freshPage
    = (page', Completed)
    /\ requests page'
       = requests freshPage
         ++ imap (fun i error => @conduitRequest browserHost (sequence freshPage + i)
                                   "abc123" error)
              [fatal; fatal; fatal]
    /\ sequence page' = sequence freshPage + length [fatal; fatal; fatal].
Proof.
  apply (@sendErrors_numbered exampleEngine browserHost [fatal; fatal; fatal] freshPage
           "abc123" "abc123"); reflexivity.
Defined.

End BridgeMore.

(** ** More on swapLoader *)

Module SwapLoaderMore.
Import PreExecutor SwapLoaderProps.

Section WithHost.
Context `{Engine} `{Host} `{Util} `{Modules}.

(** Configuring a loader touches nothing but the record of configurations. *)
Lemma configureLoader_frame defaults options loader rt :
  let rt' := (configureLoader defaults options loader rt).1 in
  globals rt' = globals rt /\ cache rt' = cache rt
  /\ executed rt' = executed rt /\ scripts rt' = scripts rt.
Proof. destruct loader as [l|]; [|done]. by destruct options. Qed.

Lemma configureLoader_Return defaults options loader rt rt' l options' :
  configureLoader defaults options loader rt = (rt', Return (l, options')) ->
  loader = Some l.
Proof.
  destruct loader as [l0|]; [|done]. cbn.
  destruct options; by intros [= _ <- _].
Qed.

Lemma swapLoader_node_global_require basePath id rt rt1 l :
  swapLoader_node basePath id rt = (rt1, Return (Some l)) ->
  is_Some (g_require (globals rt1)).
Proof.
  unfold swapLoader_node.
  destruct (g_require (globals rt)) as [active|] eqn:Hactive; [|done].
  destruct (has_nodeRequire active); cbn [negb]; [|done].
  destruct (require_resolve id) as [file|]; [|done].
  case_bool_decide.
  - intros [= <- _]. by rewrite Hactive.
  - destruct (nodeRequire _ _) as [rt2 [e|e]]; [|done]. cbv beta iota zeta.
    destruct (g_require (globals rt2)) as [g|] eqn:Hg.
    + intros [= <- _]. by rewrite Hg.
    + destruct e as [loader|]; [|by intros [=]]. intros [= <- ->]. cbn. eauto.
Qed.

(** After a swap that gives a loader on a host that is not a browser, the
    global [require] is defined, whichever way the loader was obtained. *)
Theorem swapLoader_headless_global_require
    defaults basePath loaders loaderOptions rt rt' loader options' :
  has_host_browser = false ->
  swapLoader defaults basePath loaders loaderOptions rt
  = (rt', Return (loader, options')) ->
  is_Some (g_require (globals rt')).
Proof.
  intros Hbrowser. unfold swapLoader.
  destruct (obtainLoader basePath loaders rt) as [rt1 [found|e]] eqn:Hobtain; [|done].
  intros Hconfigure.
  pose proof (configureLoader_frame defaults loaderOptions found rt1) as (Hglobals & _).
  rewrite Hconfigure in Hglobals. cbn in Hglobals. rewrite Hglobals.
  apply configureLoader_Return in Hconfigure as ->.
  unfold obtainLoader in Hobtain. rewrite Hbrowser in Hobtain.
  destruct (if has_host_node then truthy (loaders ≫= loaders_host_node) else None)
    as [id|].
  - by eapply swapLoader_node_global_require.
  - injection Hobtain as <- Hfound. by rewrite Hfound.
Qed.

(** A loader script that fails to load: the swap rejects with the error of
    line 532, whose message ends with what the property [src] of the script
    element reads as, the URL assigned to it being the loader's, taken
    below the base path unless it is absolute; no script element stays, no
    loader is configured, and the global [require] and [define] stay
    cleared. *)
Theorem swapLoader_script_failure defaults basePath loaders loaderOptions rt url :
  (if has_host_node then truthy (loaders ≫= loaders_host_node) else None) = None ->
  has_host_browser = true ->
  truthy (loaders ≫= loaders_host_browser) = Some url ->
  let src := if isAbsoluteUrl url then url else basePath +:+ url in
  script_load src (clearLoaderSlots (globals rt)) = None ->
  exists rt',
    swapLoader defaults basePath loaders loaderOptions rt
    = (rt', Throw (Error ("Failed to load AMD loader from " +:+ script_src src)))
    /\ scripts rt' = scripts rt /\ configured rt' = configured rt
    /\ g_require (globals rt') = None /\ g_define (globals rt') = false
    /\ executed rt' = executed rt.
Proof.
  intros Hnode Hbrowser Hurl src Hfail.
  unfold swapLoader, obtainLoader. rewrite Hnode, Hbrowser, Hurl.
  unfold swapLoader_browser. fold src. rewrite Hfail.
  eexists. split; [done|]. done.
Qed.

(** Without a rewritten module path, and with a global [require] that
    carries Node's [require], a loader module that is not cached is run
    once: the first swap runs it and caches it. A swap after that runs
    nothing and leaves the runtime as it is: it resolves with the global
    [require] if that carries Node's [require], and rejects with a
    TypeError if it does not or if there is none. *)
Theorem loader_module_runs_once basePath loaders rt id file active :
  has_host_node = true ->
  truthy (loaders ≫= loaders_host_node) = Some id ->
  g_require (globals rt) = Some active ->
  has_nodeRequire active = true ->
  require_resolve id = Some file ->
  cache rt !! file = None ->
  match module_findPath with
  | Some findPath => findPath id basePath = None
  | None => True
  end ->
  exists rt1 found,
    obtainLoader basePath loaders rt = (rt1, Return found)
    /\ executed rt1 = executed rt ++ [file]
    /\ is_Some (cache rt1 !! file)
    /\ obtainLoader basePath loaders rt1
       = (rt1, match g_require (globals rt1) with
               | Some next =>
                   if has_nodeRequire next then Return (Some next) else Throw TypeError
               | None => Throw TypeError
               end).
Proof.
  intros Hnode Hid Hactive Hrequire Hfile Hfresh Hpath.
  assert (match module_findPath with
          | Some findPath => default id (findPath id basePath)
          | None => id
          end = id) as Hsame.
  { destruct module_findPath as [findPath|]; [by rewrite Hpath | done]. }
  assert (forall rt1,
            is_Some (cache rt1 !! file) ->
            swapLoader_node basePath id rt1
            = (rt1, match g_require (globals rt1) with
                    | Some next =>
                        if has_nodeRequire next then Return (Some next)
                        else Throw TypeError
                    | None => Throw TypeError
                    end)) as Hsecond.
  { intros rt1 Hcached. unfold swapLoader_node.
    destruct (g_require (globals rt1)) as [next|]; [|done].
    destruct (has_nodeRequire next); cbn [negb]; [|done].
    rewrite Hfile. by rewrite bool_decide_true. }
  unfold obtainLoader. rewrite Hnode, Hid.
  unfold swapLoader_node at 1. rewrite Hactive, Hrequire, Hfile. cbn [negb].
  rewrite bool_decide_false by (rewrite Hfresh; by intros [? ?]).
  rewrite Hsame. unfold nodeRequire. rewrite Hfile. cbn [cache setGlobals].
  rewrite Hfresh.
  destruct (module_body file (globals (setGlobals (clearLoaderSlots (globals rt)) rt)))
    as [g e] eqn:Hbody.
  cbn [globals].
  destruct (g_require g) as [g0|] eqn:Hg.
  - eexists _, _. split; [done|]. cbn. rewrite lookup_insert_eq.
    split; [done|]. split; [eauto|].
    apply Hsecond. cbn. rewrite lookup_insert_eq. eauto.
  - eexists _, _. split; [done|]. cbn. rewrite lookup_insert_eq.
    split; [done|]. split; [eauto|].
    apply Hsecond. cbn. rewrite lookup_insert_eq. eauto.
Qed.

(** The merge never takes anything from the user: the base URL, the other
    options and the aliases of every prefix but the wildcard are as they
    were, and every wildcard alias of the user keeps its value. *)
Theorem mergeStarMap_keeps_user defaults user :
  baseUrl (mergeStarMap defaults user) = baseUrl user
  /\ other_options (mergeStarMap defaults user) = other_options user
  /\ (forall prefix, prefix <> "*" ->
      map (mergeStarMap defaults user) ≫= (fun aliases => aliases !! prefix)
      = map user ≫= (fun aliases => aliases !! prefix))
  /\ (forall userStarMap key v,
        starMap (Some user) = Some userStarMap ->
        userStarMap !! key = Some v ->
        exists merged,
          starMap (Some (mergeStarMap defaults user)) = Some merged
          /\ merged !! key = Some v).
Proof.
  rewrite mergeStarMap_cases.
  destruct (starMap (Some user)) as [userStarMap|] eqn:Hu;
    [destruct (starMap defaults) as [defaultStarMap|] eqn:Hd|].
  - split; [done|]. split; [done|]. split.
    + intros prefix Hprefix. unfold withStarMap. cbn.
      rewrite lookup_insert_ne by done.
      unfold starMap in Hu. cbn in Hu. by destruct (map user).
    + intros ? key v [= <-] Hv. exists (fillStarMap defaultStarMap userStarMap).
      split.
      * unfold starMap, withStarMap. cbn. by rewrite lookup_insert_eq.
      * by rewrite fillStarMap_lookup, Hv.
  - repeat (split; [done|]). intros ? key v [= <-] Hv. rewrite Hu. eauto.
  - repeat (split; [done|]). by intros.
Qed.

End WithHost.

Import Example MoreExamples.

Lemma swapLoader_headless_global_require_witness :
  is_Some
    (g_require
       (globals
          (@swapLoader exampleEngine nodeHost exampleUtil exampleModules
             (Some (starOptions aliases_a1_b2)) "/home/project/" (Some nodeLoaders)
             (Some noOptions) bootRuntime).1)).
Proof.
  eapply (@swapLoader_headless_global_require exampleEngine nodeHost exampleUtil
            exampleModules (Some (starOptions aliases_a1_b2)) "/home/project/"
            (Some nodeLoaders) (Some noOptions) bootRuntime).
  - reflexivity.
  - vm_compute. reflexivity.
Defined.

Lemma swapLoader_script_failure_witness :
  exists rt',
    @swapLoader exampleEngine localBrowserHost exampleUtil exampleModules
      None "/app/" (Some browserLoaders) None bootRuntime
    = (rt', Throw (Error ("Failed to load AMD loader from "
                          +:+ "http://localhost:9000/app/lib/require.js")))
    /\ scripts rt' = scripts bootRuntime /\ configured rt' = configured bootRuntime
    /\ g_require (globals rt') = None /\ g_define (globals rt') = false
    /\ executed rt' = executed bootRuntime.
Proof.
  apply (@swapLoader_script_failure exampleEngine localBrowserHost exampleUtil
           exampleModules None "/app/" (Some browserLoaders) None bootRuntime
           "lib/require.js"); reflexivity.
Defined.

Lemma loader_module_runs_once_witness :
  exists rt1 found,
    @obtainLoader nodeHost exampleUtil exampleModules "/home/project/" (Some nodeLoaders)
      bootRuntime = (rt1, Return found)
    /\ executed rt1
       = executed bootRuntime ++ ["/home/project/node_modules/requirejs/bin/r.js"]
    /\ is_Some (cache rt1 !! "/home/project/node_modules/requirejs/bin/r.js")
    /\ @obtainLoader nodeHost exampleUtil exampleModules "/home/project/"
         (Some nodeLoaders) rt1
       = (rt1, match g_require (globals rt1) with
               | Some next =>
                   if has_nodeRequire next then Return (Some next) else Throw TypeError
               | None => Throw TypeError
               end).
Proof.
  apply (@loader_module_runs_once nodeHost exampleUtil exampleModules "/home/project/"
           (Some nodeLoaders) bootRuntime "requirejs"
           "/home/project/node_modules/requirejs/bin/r.js" dojoLoader); reflexivity.
Defined.

End SwapLoaderMore.

(** ** More on getConfig *)

Module GetConfigMore.
Import PreExecutor TextProps GetConfigProps.

Lemma append_nil_r s : s +:+ EmptyString = s.
Proof. induction s as [|c s IH]; [done|]. string_append. by rewrite IH. Qed.

Lemma length_append s t :
  String.length (s +:+ t) = String.length s + String.length t.
Proof. induction s as [|c s IH]; [done|]. string_append. cbn. by rewrite IH. Qed.

Lemma rev_app_append s t : String.rev_app s t = String.rev s +:+ t.
Proof.
  unfold String.rev. revert t.
  induction s as [|c s IH]; intros t; [done|]. cbn [String.rev_app].
  by rewrite (IH (String c t)), (IH (String c EmptyString)), string_app_assoc.
Qed.

Lemma rev_cons c s : String.rev (String c s) = String.rev s +:+ String c EmptyString.
Proof. exact (rev_app_append s (String c EmptyString)). Qed.

Lemma rev_append s t : String.rev (s +:+ t) = String.rev t +:+ String.rev s.
Proof.
  induction s as [|c s IH]; string_append.
  - change (String.rev EmptyString) with EmptyString. by rewrite append_nil_r.
  - by rewrite !rev_cons, IH, string_app_assoc.
Qed.

Lemma rev_involutive s : String.rev (String.rev s) = s.
Proof.
  induction s as [|c s IH]; [done|].
  by rewrite rev_cons, rev_append, IH.
Qed.

Lemma length_rev s : String.length (String.rev s) = String.length s.
Proof.
  induction s as [|c s IH]; [done|].
  rewrite rev_cons, length_append, IH. cbn. lia.
Qed.

Lemma prefix_append p s : String.prefix p (p +:+ s) = true.
Proof.
  induction p as [|c p IH]; string_append.
  - by destruct s.
  - cbn. by destruct (ascii_dec c c).
Qed.

Lemma prefix_split p s :
  String.prefix p s = true -> s = p +:+ slice_from (String.length p) s.
Proof.
  revert s. induction p as [|c p IH]; intros s; [done|].
  destruct s as [|a s]; [done|]. cbn.
  destruct (ascii_dec c a) as [->|]; [|done].
  intros Hp. string_append. f_equal. by apply IH.
Qed.

Lemma slice_from_append p s : slice_from (String.length p) (p +:+ s) = s.
Proof. induction p as [|c p IH]; [done|]. string_append. by cbn. Qed.

Lemma ends_with_append suffix s : ends_with suffix (s +:+ suffix) = true.
Proof. unfold ends_with. rewrite rev_append. apply prefix_append. Qed.

Lemma drop_last_append suffix s :
  drop_last (String.length suffix) (s +:+ suffix) = s.
Proof.
  unfold drop_last.
  by rewrite rev_append, <- (length_rev suffix), slice_from_append, rev_involutive.
Qed.

(** A string that ends with a suffix is what is before it, and the suffix. *)
Lemma ends_with_split suffix s :
  ends_with suffix s = true -> s = drop_last (String.length suffix) s +:+ suffix.
Proof.
  unfold ends_with, drop_last. intros Hp. apply prefix_split in Hp.
  rewrite length_rev in Hp.
  apply (f_equal String.rev) in Hp.
  by rewrite rev_involutive, rev_append, rev_involutive in Hp.
Qed.

Lemma with_js_extension_append s : with_js_extension (s +:+ ".js") = s +:+ ".js".
Proof.
  unfold with_js_extension. rewrite ends_with_append.
  exact (f_equal (fun t => t +:+ ".js") (drop_last_append ".js" s)).
Qed.



Section WithHost.
Context `{Engine} `{Host} `{Util}.

(** The extension is added once: a module id that has it stays as it is,
    any other gets it, and adding it again changes nothing. *)
Theorem with_js_extension_idempotent moduleId :
  with_js_extension (with_js_extension moduleId) = with_js_extension moduleId
  /\ ends_with ".js" (with_js_extension moduleId) = true
  /\ (ends_with ".js" moduleId = true -> with_js_extension moduleId = moduleId)
  /\ (ends_with ".js" moduleId = false ->
      with_js_extension moduleId = moduleId +:+ ".js").
Proof.
  assert (exists s, with_js_extension moduleId = s +:+ ".js") as [s Hs]
    by (unfold with_js_extension; eauto).
  split; [by rewrite Hs, with_js_extension_append|].
  split; [by rewrite Hs, ends_with_append|].
  split.
  - intros Hjs. apply (ends_with_split ".js") in Hjs.
    set (t := drop_last _ _) in Hjs. rewrite Hjs. apply with_js_extension_append.
  - intros Hjs. unfold with_js_extension. by rewrite Hjs.
Qed.


(** The deprecated keys win, null included. Where the type of [loader] is
    object, the loader options are its options, and the empty object when
    it is null, so that the base URL of the loader is then the base path;
    otherwise they are [loaderOptions]. Where the type of [useLoader] is
    object, the loaders are its loaders, and null when it is null;
    otherwise they are [loaders]. Each of the two keys whose type is object
    adds one deprecation event after the events there were, in this
    order. *)
Theorem resolveConfig_deprecated_keys args config events resolved events' :
  resolveConfig args config events = Return (resolved, events') ->
  (map (r_loaderOptions resolved), other_options (r_loaderOptions resolved))
  = match loader config with
    | AnObject options => (map options, other_options options)
    | Null => (None, ∅)
    | NotAnObject =>
        match loaderOptions config with
        | Some options => (map options, other_options options)
        | None => (None, ∅)
        end
    end
  /\ (loader config = Null -> baseUrl (r_loaderOptions resolved) = r_basePath resolved)
  /\ r_loaders resolved
     = match useLoader config with
       | AnObject l => Some l
       | Null => None
       | NotAnObject => loaders config
       end
  /\ events'
     = events
       ++ match loader config with
          | NotAnObject => []
          | _ => [["deprecated";
                   "The " +:+ dquote +:+ "loader" +:+ dquote +:+ " configuration option";
                   dquote +:+ "loaderOptions" +:+ dquote]]
          end
       ++ match useLoader config with
          | NotAnObject => []
          | _ => [["deprecated";
                   "The " +:+ dquote +:+ "useLoader" +:+ dquote +:+ " configuration option";
                   dquote +:+ "loaders" +:+ dquote]]
          end.
Proof.
  unfold resolveConfig. intros Hr.
  apply bind_Return in Hr as ([[bp bu] g] & Hpaths & Hr).
  apply bind_Return in Hr as (port & _ & Hr).
  injection Hr as <- <-. cbn.
  split; [|split; [|split]].
  - unfold effectiveLoaderOptions.
    destruct (loader config); [done | done |]. by destruct (loaderOptions config).
  - intros Hnull.
    apply resolvePathsAndGrep_Return in Hpaths as (isAbsolute & _ & Hurl & _).
    unfold effectiveLoaderOptions in Hurl. rewrite Hnull in Hurl. cbn in Hurl.
    by injection Hurl as ->.
  - done.
  - destruct (loader config), (useLoader config); cbn;
      by rewrite ?app_nil_r, <- ?app_assoc.
Qed.

(** The coverage variable, when it is set and not empty, is written into
    the instrumenter options; every other instrumenter option is as the
    configuration gave it. *)
Theorem resolveConfig_instrumenterOptions args config events resolved events' :
  resolveConfig args config events = Return (resolved, events') ->
  r_instrumenterOptions resolved !! "coverageVariable"
  = match truthy (coverageVariable config) with
    | Some name => Some (VString name)
    | None => instrumenterOptions config ≫= (fun options => options !! "coverageVariable")
    end
  /\ forall key, key <> "coverageVariable" ->
       r_instrumenterOptions resolved !! key
       = instrumenterOptions config ≫= (fun options => options !! key).
Proof.
  unfold resolveConfig. intros Hr.
  apply bind_Return in Hr as ([[bp bu] g] & _ & Hr).
  apply bind_Return in Hr as (port & _ & Hr).
  injection Hr as <- _. cbn.
  assert (forall key, default ∅ (instrumenterOptions config) !! key
                      = instrumenterOptions config ≫= (fun options => options !! key))
    as Hdefault by (intros key; by destruct (instrumenterOptions config)).
  destruct (coverageVariable config) as [[|c name]|]; cbn.
  - split; [apply Hdefault | intros; apply Hdefault].
  - split; [by rewrite lookup_insert_eq|].
    intros key Hkey. rewrite lookup_insert_ne by done. apply Hdefault.
  - split; [apply Hdefault | intros; apply Hdefault].
Qed.

Lemma resolveBaseUrl_returns basePath1 isAbsolute url :
  exists baseUrl1, resolveBaseUrl basePath1 (Some isAbsolute) url = Return baseUrl1.
Proof.
  unfold resolveBaseUrl. destruct url as [[|c url]|]; eauto.
  destruct (isAbsolute _); eauto.
Qed.

Lemma compileGrep_Throw grep e : compileGrep grep = Throw e -> e = SyntaxError.
Proof.
  unfold compileGrep, newRegExp.
  destruct grep as [text|]; [destruct (exec_grep_literal text) as [[pattern flags]|]|];
    destruct (RegExp_accepts _ _); by intros [=].
Qed.

(** On Node the resolution of a configuration fails in two ways only: the
    grep does not compile, or it does and the proxy port is a string that
    is no number. *)
Theorem resolveConfig_node_throws args config events e :
  has_host_node = true ->
  (resolveConfig args config events = Throw e
   <-> compileGrep (grep config) = Throw e
       \/ ((exists r, compileGrep (grep config) = Return r)
           /\ e = Error "proxyPort must be a number"
           /\ exists s, proxyPort config = Some (PortString s)
                        /\ isNaN_number (StringToNumber s) = true))
  /\ (resolveConfig args config events = Throw e ->
      e = SyntaxError \/ e = Error "proxyPort must be a number").
Proof.
  intros Hnode.
  assert (resolveConfig args config events = Throw e
          <-> compileGrep (grep config) = Throw e
              \/ ((exists r, compileGrep (grep config) = Return r)
                  /\ e = Error "proxyPort must be a number"
                  /\ exists s, proxyPort config = Some (PortString s)
                               /\ isNaN_number (StringToNumber s) = true)) as Hiff.
  { unfold resolveConfig, resolvePathsAndGrep, resolveBasePath. rewrite Hnode.
    cbn [mbind completion_bind JS.bind].
    destruct (resolveBaseUrl_returns
                (Some (with_final_slash (normalizePath (default process_cwd (basePath config)))))
                isAbsoluteBaseUrl_node (baseUrl (effectiveLoaderOptions config)))
      as [baseUrl1 ->].
    cbn [mbind completion_bind JS.bind].
    destruct (compileGrep (grep config)) as [g|e0]; cbn [mbind completion_bind JS.bind].
    2: { split; [intros [= <-]; by left | by intros [[= <-]|[[r ?] _]]]. }
    unfold resolveProxyPort.
    destruct (proxyPort config) as [[n|s]|]; cbn [mbind completion_bind JS.bind].
    - split; [done | by intros [?|(_ & _ & s & ? & _)]].
    - destruct (isNaN_number (StringToNumber s)) eqn:Hnan;
        cbn [mbind completion_bind JS.bind]; split.
      + intros [= <-]. right. split; [by eexists|]. split; [done|]. by exists s.
      + by intros [?|(_ & -> & _)].
      + done.
      + intros [?|(_ & _ & s' & [= <-] & Hnan')]; [done | congruence].
    - split; [done | by intros [?|(_ & _ & s & ? & _)]]. }
  split; [done|]. rewrite Hiff.
  intros [Hgrep|(_ & -> & _)]; [left; by eapply compileGrep_Throw | by right].
Qed.

End WithHost.

Import Example MoreExamples.


(** A module id with a reference to the text matched is asked for at two
    different URLs. *)
Example getConfig_module_id_reference :
  replace_final_slash ("/" +:+ with_js_extension "a$&b") "x" = "x/ab.js"
  /\ replace_final_slash ("/" +:+ with_js_extension "a$&b") "x/" = "x/a/b.js".
Proof. split; vm_compute; reflexivity. Qed.

Lemma resolveConfig_deprecated_keys_witness :
  exists resolved events',
    @resolveConfig exampleEngine nodeHost exampleUtil exampleArgs nullLoaderConfig []
    = Return (resolved, events')
    /\ map (r_loaderOptions resolved) = None
    /\ baseUrl (r_loaderOptions resolved) = Some "/home/project/"
    /\ r_loaders resolved = None
    /\ length events' = 2.
Proof.
  destruct (@resolveConfig_deprecated_keys exampleEngine nodeHost exampleUtil exampleArgs
              nullLoaderConfig [] _ _ eq_refl)
    as (Hoptions & Hurl & Hloaders & Hevents).
  eexists _, _. split; [reflexivity|].
  split; [exact (f_equal fst Hoptions)|].
  split; [exact (Hurl eq_refl)|].
  split; [exact Hloaders|]. by rewrite Hevents.
Defined.

(** The same with objects under the deprecated keys. *)
Example deprecated_keys_objects :
  exists resolved events',
    @resolveConfig exampleEngine nodeHost exampleUtil exampleArgs deprecatedConfig []
    = Return (resolved, events')
    /\ map (r_loaderOptions resolved) = Some {["*" := aliases_a3]}
    /\ r_loaders resolved = Some nodeLoaders
    /\ length events' = 2.
Proof. eexists _, _. split; [reflexivity|]. repeat split. Qed.

Lemma resolveConfig_instrumenterOptions_witness :
  exists resolved events',
    @resolveConfig exampleEngine nodeHost exampleUtil exampleArgs coverageConfig []
    = Return (resolved, events')
    /\ r_instrumenterOptions resolved !! "coverageVariable"
       = Some (VString "__internCoverage")
    /\ r_instrumenterOptions resolved !! "noCompact" = Some (VBool true).
Proof.
  destruct (@resolveConfig_instrumenterOptions exampleEngine nodeHost exampleUtil
              exampleArgs coverageConfig [] _ _ eq_refl)
    as (Hcoverage & Hothers).
  eexists _, _. split; [reflexivity|].
  split; [exact Hcoverage|]. by rewrite Hothers.
Defined.

Lemma resolveConfig_node_throws_witness :
  @resolveConfig exampleEngine nodeHost exampleUtil exampleArgs
    (exampleConfig None None (Some "(") None) []
  = Throw SyntaxError.
Proof.
  apply (proj1 (@resolveConfig_node_throws exampleEngine nodeHost exampleUtil exampleArgs
                  (exampleConfig None None (Some "(") None) [] SyntaxError eq_refl)).
  left. reflexivity.
Defined.

End GetConfigMore.

(** ** The first stages of the pipeline of run *)

Module PipelineProps.
Import PreExecutor TextProps GetConfigProps.

Section WithHost.
Context `{Engine} `{Host} `{Util} `{Modules}.

Lemma nodeRequire_configured id rt : configured (nodeRequire id rt).1 = configured rt.
Proof.
  unfold nodeRequire. destruct (require_resolve id) as [file|]; [|done].
  destruct (cache rt !! file); [done|]. by destruct (module_body _ _).
Qed.

(** Obtaining a loader configures none. *)
Lemma obtainLoader_configured basePath loaders rt :
  configured (obtainLoader basePath loaders rt).1 = configured rt.
Proof.
  unfold obtainLoader.
  destruct (if has_host_node then truthy (loaders ≫= loaders_host_node) else None)
    as [id|].
  - unfold swapLoader_node.
    destruct (g_require (globals rt)) as [active|]; [|done].
    destruct (has_nodeRequire active); cbn [negb]; [|done].
    destruct (require_resolve id) as [file|]; [|done].
    case_bool_decide; [done|].
    match goal with
    | |- context [nodeRequire ?i ?r] =>
        pose proof (nodeRequire_configured i r) as Hrun;
        destruct (nodeRequire i r) as [rt2 [e|e]]
    end; cbn in Hrun; [|done].
    cbv beta iota zeta. by destruct (g_require (globals rt2)).
  - destruct (if has_host_browser then truthy (loaders ≫= loaders_host_browser) else None)
      as [url|]; [|done].
    unfold swapLoader_browser. by destruct (script_load _ _).
Qed.

Lemma run_getConfig_Return defaults args events config events' :
  run_getConfig defaults args events = Return (config, events') ->
  exists defaultBaseUrl moduleId merged,
    defaults ≫= baseUrl = Some defaultBaseUrl
    /\ arg_config args = Some moduleId
    /\ getMergedConfig
         (replace_final_slash ("/" +:+ with_js_extension moduleId) defaultBaseUrl) args
       = Return merged
    /\ resolveConfig args merged events = Return (config, events').
Proof.
  unfold run_getConfig.
  destruct (defaults ≫= baseUrl) as [defaultBaseUrl|].
  - intros Hr. apply getConfig_Return in Hr as (moduleId & merged & ? & ? & ?).
    by exists defaultBaseUrl, moduleId, merged.
  - destruct (arg_config args) as [[|c moduleId]|]; try done.
    by destruct (assertSafeModuleId _).
Qed.

(** A configuration resolved in a browser or on Node has a base path that
    ends with a slash and a base URL for the loader. *)
Lemma resolveConfig_paths args merged events config events' :
  has_host_node || has_host_browser = true ->
  resolveConfig args merged events = Return (config, events') ->
  exists basePath1,
    r_basePath config = Some basePath1 /\ last_char basePath1 = Some "/"%char
    /\ is_Some (baseUrl (r_loaderOptions config)).
Proof.
  intros Hhost Hr.
  apply resolveConfig_Return in Hr as (_ & Hpaths & _).
  apply resolvePathsAndGrep_Return in Hpaths as (isAbs & Hbp & Hbu & _).
  apply resolveBasePath_final_slash in Hbp as (path & Hpath & Hslash & ->); [|done].
  exists path. split; [done|]. split; [done|].
  rewrite Hpath in Hbu. unfold resolveBaseUrl in Hbu.
  destruct (baseUrl (effectiveLoaderOptions merged)) as [[|c url]|]; simplify_eq;
    try (rewrite <- Hbu; eauto).
  destruct (isAbsoluteBaseUrl (String c url)); simplify_eq; rewrite <- Hbu; eauto.
Qed.

(** When [getConfig] and [swapLoader] have run in a browser or on Node, the
    loader has been configured twice and in this order: with the default
    loader options, then with the loader options of the configuration after
    the merge of the wildcard aliases. The second always carries a base
    URL, and the base path that the swap worked from ends with a slash. *)
Theorem run_swapLoader_configures
    defaults args events rt rt' config events' loader options :
  has_host_node || has_host_browser = true ->
  run_swapLoader defaults args events rt
  = (rt', Return (config, events', loader, options)) ->
  exists basePath1 merged,
    r_basePath config = Some basePath1
    /\ last_char basePath1 = Some "/"%char
    /\ options = Some merged
    /\ merged = mergeStarMap defaults (r_loaderOptions config)
    /\ is_Some (baseUrl merged)
    /\ baseUrl merged = baseUrl (r_loaderOptions config)
    /\ configured rt' = configured rt ++ [(loader, defaults); (loader, Some merged)].
Proof.
  intros Hhost Hrun. unfold run_swapLoader in Hrun.
  destruct (run_getConfig defaults args events) as [[config0 events0]|e] eqn:Hconfig;
    [|done].
  destruct (swapLoader _ _ _ _ _) as [rt1 [[l o]|e]] eqn:Hswap; [|done].
  injection Hrun as <- <- <- <- <-.
  apply run_getConfig_Return in Hconfig as (base & moduleId & merged & _ & _ & _ & Hresolve).
  apply resolveConfig_paths in Hresolve as (basePath1 & Hpath & Hslash & Hurl); [|done].
  assert (baseUrl (mergeStarMap defaults (r_loaderOptions config0))
          = baseUrl (r_loaderOptions config0)) as Hsame.
  { unfold mergeStarMap. by repeat case_match. }
  exists basePath1, (mergeStarMap defaults (r_loaderOptions config0)).
  split; [done|]. split; [done|].
  unfold swapLoader in Hswap.
  pose proof (obtainLoader_configured (default "undefined" (r_basePath config0))
                (r_loaders config0) rt) as Hconfigured.
  destruct (obtainLoader _ _ rt) as [rt2 [[found|]|e]]; [| done | done].
  cbn in Hswap, Hconfigured. injection Hswap as <- <- <-.
  split; [done|]. split; [done|]. split; [by rewrite Hsame|]. split; [done|].
  cbn. by rewrite Hconfigured, <- app_assoc.
Qed.

(** In a browser, a loader script that the configuration names by a URL
    that is not absolute is asked for below the base path of the
    configuration, and it is the one script that the swap adds. *)
Theorem run_swapLoader_script_below_basePath
    defaults args events rt rt' config events' loader options url :
  has_host_node = false ->
  has_host_browser = true ->
  run_swapLoader defaults args events rt
  = (rt', Return (config, events', loader, options)) ->
  truthy (r_loaders config ≫= loaders_host_browser) = Some url ->
  isAbsoluteUrl url = false ->
  exists basePath1,
    r_basePath config = Some basePath1
    /\ last_char basePath1 = Some "/"%char
    /\ scripts rt' = scripts rt ++ [basePath1 +:+ url].
Proof.
  intros Hnode Hbrowser Hrun Hurl Hrelative. unfold run_swapLoader in Hrun.
  destruct (run_getConfig defaults args events) as [[config0 events0]|e] eqn:Hconfig;
    [|done].
  destruct (swapLoader _ _ _ _ _) as [rt1 [[l o]|e]] eqn:Hswap; [|done].
  injection Hrun as <- <- <- <- <-.
  apply run_getConfig_Return in Hconfig as (base & moduleId & merged & _ & _ & _ & Hresolve).
  apply resolveConfig_paths in Hresolve as (basePath1 & Hpath & Hslash & _);
    [|by rewrite Hbrowser, orb_true_r].
  exists basePath1. split; [done|]. split; [done|].
  unfold swapLoader, obtainLoader in Hswap.
  rewrite Hnode, Hbrowser, Hurl, Hpath in Hswap. cbn [default] in Hswap.
  unfold swapLoader_browser in Hswap. rewrite Hrelative in Hswap.
  destruct (script_load _ _) as [g|]; [|done].
  destruct (match g_curl g with Some l0 => Some l0 | None => _ end) as [found|];
    [|done].
  cbn in Hswap. by injection Hswap as <- _ _.
Qed.

End WithHost.

Import Example MoreExamples.

Lemma run_swapLoader_configures_witness :
  exists rt' config events' options basePath1 merged,
    @run_swapLoader exampleEngine nodeHost exampleUtil exampleModules
      (Some internDefaults) exampleArgs [] bootRuntime
    = (rt', Return (config, events', dojoLoader, options))
    /\ r_basePath config = Some basePath1
    /\ options = Some merged
    /\ is_Some (baseUrl merged)
    /\ configured rt' = [(dojoLoader, Some internDefaults); (dojoLoader, Some merged)].
Proof.
  destruct (@run_swapLoader_configures exampleEngine nodeHost exampleUtil exampleModules
              (Some internDefaults) exampleArgs [] bootRuntime _ _ _ _ _
              eq_refl eq_refl)
    as (basePath1 & merged & Hpath & _ & Hoptions & _ & Hurl & _ & Hconfigured).
  eexists _, _, _, _, basePath1, merged. split; [reflexivity|].
  split; [exact Hpath|]. split; [exact Hoptions|]. split; [exact Hurl|].
  exact Hconfigured.
Defined.

Lemma run_swapLoader_script_below_basePath_witness :
  exists rt' config events' loader options,
    @run_swapLoader exampleEngine localBrowserHost browserUtil browserModules
      (Some internDefaults) exampleArgs [] bootRuntime
    = (rt', Return (config, events', loader, options))
    /\ scripts rt' = ["/app/" +:+ "lib/require.js"].
Proof.
  destruct (@run_swapLoader_script_below_basePath exampleEngine localBrowserHost
              browserUtil browserModules (Some internDefaults) exampleArgs []
              bootRuntime _ _ _ _ _ "lib/require.js"
              eq_refl eq_refl eq_refl eq_refl eq_refl)
    as (basePath1 & Hpath & _ & Hscripts).
  eexists _, _, _, _, _. split; [reflexivity|].
  injection Hpath as <-. exact Hscripts.
Defined.

End PipelineProps.
